(** * AutoWebsite-Monitor: the scan-and-score pipeline

    A shallow embedding of [scanWebsite] (services/webScanner), of
    [simulateAnalysis] and [analyzeWithGemini] (services/geminiService.ts)
    and of the interfaces of [types.ts], with the properties of the
    pipeline stated and proved over it. *)

From Stdlib Require Import ZArith NArith QArith Qround Ascii String List Bool Lia Lqa.
From Stdlib Require Import SpecFloat.
From stdpp Require Import base option list gmap.

Local Open Scope Z_scope.

(** ** JavaScript strings

    A JavaScript string is a sequence of UTF-16 code units; [length],
    [substring], [startsWith], [includes], [trim] and a regular expression
    without the [u] flag all work on code units.  A code unit is kept as
    its number. *)

Definition jsstring := list N.

(** A source literal: every literal of the two services is plain ASCII. *)
Definition str (s : string) : jsstring :=
  map N_of_ascii (list_ascii_of_string s).

(** [s.length > 0], and the truthiness of a string: only [""] is falsy. *)
Definition nonempty (s : jsstring) : bool :=
  match s with [] => false | _ :: _ => true end.

(** [s.substring(0, n)] for a literal [n >= 0]. *)
Definition substring0 (n : nat) (s : jsstring) : jsstring := take n s.

(** [s.startsWith(p)]: exact comparison of code units. *)
Fixpoint startsWith (p s : jsstring) : bool :=
  match p, s with
  | [], _ => true
  | _ :: _, [] => false
  | a :: p', b :: s' => (a =? b)%N && startsWith p' s'
  end.

(** [s.includes(p)]: [p] starts at some index of [s]. *)
Fixpoint includes (p s : jsstring) : bool :=
  startsWith p s ||
  match s with
  | [] => false
  | _ :: s' => includes p s'
  end.

(** ECMAScript WhiteSpace and LineTerminator, what [trim] strips: TAB, LF,
    VT, FF, CR, SP, NBSP, the other Space_Separator code points, LS, PS
    and the byte order mark. *)
Definition isWhiteSpace (c : N) : bool :=
  ((9 <=? c) && (c <=? 13) || (c =? 32) || (c =? 160) || (c =? 5760)
   || (8192 <=? c) && (c <=? 8202) || (c =? 8232) || (c =? 8233)
   || (c =? 8239) || (c =? 8287) || (c =? 12288) || (c =? 65279))%N.

Fixpoint trimStart (s : jsstring) : jsstring :=
  match s with
  | c :: s' => if isWhiteSpace c then trimStart s' else s
  | [] => []
  end.

Definition trimEnd (s : jsstring) : jsstring :=
  reverse (trimStart (reverse s)).

(** [s.trim()]. *)
Definition trim (s : jsstring) : jsstring := trimEnd (trimStart s).

(** ** Regular expressions

    The three patterns of [scanWebsite] are sequences of: the start
    assertion, one character, an optional character, a greedy star of a
    character class, and one capturing group holding a lazy star of a
    character class.  The matcher below is the backtracking matcher of
    ECMAScript restricted to these forms. *)

(** Canonicalize of the [i] flag on the ASCII range.  Outside it
    Canonicalize never yields a code unit below 128, and every pattern
    character here is ASCII, so a comparison with a pattern character has
    the same outcome as under full Unicode upper-casing. *)
Definition canon (c : N) : N :=
  if ((97 <=? c) && (c <=? 122))%N then (c - 32)%N else c.

Inductive cls :=
  | Lit (c : N)      (* a pattern character *)
  | AnyChar          (* [\s\S] *)
  | NotChar (c : N). (* [^c] *)

Definition cls_match (k : cls) (c : N) : bool :=
  match k with
  | Lit p => (canon c =? canon p)%N
  | AnyChar => true
  | NotChar p => negb (canon c =? canon p)%N
  end.

Inductive node :=
  | Bol                  (* ^ *)
  | Chr (k : cls)        (* k *)
  | Opt (k : cls)        (* k? *)
  | Star (k : cls)       (* k* *)
  | LazyGroup (k : cls). (* (k*?) *)

Definition regex := list node.

(** The characters of a literal, one [Chr] each. *)
Definition chars (p : jsstring) : regex := map (fun c => Chr (Lit c)) p.

Definition lits (s : string) : regex := chars (str s).

(** A match: the matched text ([m[0]]) and the text of the group ([m[1]]). *)
Definition rmatch_result := (jsstring * jsstring)%type.

Definition consume (c : N) (m : option rmatch_result) : option rmatch_result :=
  match m with
  | Some (w, g) => Some (c :: w, g)
  | None => None
  end.

Definition capture (c : N) (m : option rmatch_result) : option rmatch_result :=
  match m with
  | Some (w, g) => Some (c :: w, c :: g)
  | None => None
  end.

(** [rmatch r bol s]: match [r] at the head of [s]; [bol] tells whether
    the head of [s] is the start of the input. *)
Fixpoint rmatch (r : regex) (bol : bool) (s : jsstring) : option rmatch_result :=
  match r with
  | [] => Some ([], [])
  | Bol :: r' => if bol then rmatch r' bol s else None
  | Chr k :: r' =>
      match s with
      | c :: s' => if cls_match k c then consume c (rmatch r' false s') else None
      | [] => None
      end
  | Opt k :: r' =>
      match s with
      | c :: s' =>
          if cls_match k c then
            match rmatch r' false s' with
            | Some m => consume c (Some m)
            | None => rmatch r' bol s
            end
          else rmatch r' bol s
      | [] => rmatch r' bol s
      end
  | Star k :: r' =>
      (fix star (bol : bool) (s : jsstring) : option rmatch_result :=
         match s with
         | c :: s' =>
             if cls_match k c then
               match star false s' with
               | Some m => consume c (Some m)
               | None => rmatch r' bol s
               end
             else rmatch r' bol s
         | [] => rmatch r' bol s
         end) bol s
  | LazyGroup k :: r' =>
      (fix lazy (bol : bool) (s : jsstring) : option rmatch_result :=
         match rmatch r' bol s with
         | Some (w, _) => Some (w, [])
         | None =>
             match s with
             | c :: s' => if cls_match k c then capture c (lazy false s') else None
             | [] => None
             end
         end) bol s
  end.

(** [RegExp.prototype.exec] of a regex that is neither global nor sticky:
    the first index at which the pattern matches. *)
Fixpoint search (r : regex) (bol : bool) (s : jsstring) : option rmatch_result :=
  match rmatch r bol s with
  | Some m => Some m
  | None =>
      match s with
      | [] => None
      | _ :: s' => search r false s'
      end
  end.

(** [s.match(r)]. *)
Definition exec (r : regex) (s : jsstring) : option rmatch_result := search r true s.

(** [r.test(s)]. *)
Definition test (r : regex) (s : jsstring) : bool :=
  match exec r s with Some _ => true | None => false end.

(** [/^https?:\/\//i] *)
Definition protocolRe : regex := Bol :: lits "http" ++ Opt (Lit 115) :: lits "://".

(** [/<head>([\s\S]*?)<\/head>/i] *)
Definition headRe : regex := lits "<head>" ++ LazyGroup AnyChar :: lits "</head>".

(** [/<body[^>]*>([\s\S]*?)<\/body>/i] *)
Definition bodyRe : regex :=
  lits "<body" ++ Star (NotChar 62) :: Chr (Lit 62) :: LazyGroup AnyChar :: lits "</body>".

(** ** Settled promises and thrown errors

    An [async] function is modelled by the way its promise settles:
    [Normal v] when it resolves with [v], [Throw e] when it rejects with
    [e].  [await] on a rejected promise throws inside the function. *)

(** What [fetch], [Response.text] and [new Error(msg)] throw: an object
    with a string [name] and a string [message]. *)
Record JsError := { name : jsstring; message : jsstring }.

Inductive Completion (A : Type) :=
  | Normal (a : A)
  | Throw (e : JsError).
Arguments Normal {A} a.
Arguments Throw {A} e.

#[export] Instance Completion_ret : MRet Completion := fun A a => Normal a.
#[export] Instance Completion_bind : MBind Completion := fun A B f m =>
  match m with
  | Normal a => f a
  | Throw e => Throw e
  end.

(** [try { body } catch (error) { handler }] *)
Definition try_catch {A} (body : Completion A) (handler : JsError -> Completion A)
  : Completion A :=
  match body with
  | Normal a => Normal a
  | Throw e => handler e
  end.

(** [new Error(msg)] *)
Definition Error (msg : string) : JsError := {| name := str "Error"; message := str msg |}.

(** ** types.ts *)

Record ScanMetrics := {
  url : jsstring;
  statusCode : option Z;               (* number | null *)
  responseTimeMs : option Z;           (* number | null *)
  headers : gmap jsstring jsstring;    (* Record<string, string> *)
  htmlSnippet : option jsstring;       (* string | null *)
  fetchError : option jsstring         (* fetchError?: string *)
}.

Record Findings := { summary : jsstring; details : list jsstring }.

Inductive PrivacyLevel := LowConcern | NeedsAttention | HighConcern.

Record PrivacyFindings := { privacy_findings :> Findings; level : PrivacyLevel }.

Record AIAnalysis := {
  healthScore : Z;
  seo : Findings;
  accessibility : Findings;
  privacy : PrivacyFindings;
  jsErrors : option Findings;          (* { summary, details } | null *)
  recommendations : list jsstring
}.

(** Truthiness of the nullable fields: [null], [undefined], [0] and [""]
    are falsy.  [statusCode] is kept as an integer, as HTTP gives it. *)
Definition truthy_number (n : option Z) : bool :=
  match n with
  | Some c => negb (c =? 0)
  | None => false
  end.

Definition truthy_string (s : option jsstring) : bool :=
  match s with
  | Some t => nonempty t
  | None => false
  end.

(** [n >= k] for a nullable [n]: [null] converts to [0]. *)
Definition number_ge (n : option Z) (k : Z) : bool :=
  match n with
  | Some c => k <=? c
  | None => 0 >=? k
  end.

(** [s?.includes(p)], read as a condition: [undefined] is falsy. *)
Definition opt_includes (p : jsstring) (s : option jsstring) : bool :=
  match s with
  | Some t => includes p t
  | None => false
  end.

(** ** services/webScanner: [scanWebsite] *)

(** What the network does to the one request.  The timer of line 14 and
    the transport run side by side; which of them comes first is the
    environment's choice, given here as an event. *)
Inductive BodyEvent :=
  | BodyText (text : jsstring)        (* response.text() resolves *)
  | BodyFails (e : JsError)           (* the body stream fails *)
  | BodyAborted (msg : jsstring).     (* the timer fires while the body is read *)

(** [response_headers] holds the pairs that [response.headers.forEach]
    hands to its callback, in that order: the browser lists a header name
    once, in lower case, with the values of a repeated header joined. *)
Record Response := {
  status : Z;
  response_headers : list (jsstring * jsstring);
  body : BodyEvent
}.

Inductive FetchEvent :=
  | Responds (r : Response)           (* fetch resolves *)
  | Fails (e : JsError)               (* network error, DNS failure, CORS block *)
  | Aborted (msg : jsstring).         (* the timer fires first: controller.abort() *)

(** A reading of [performance.now()] is a double.  Doubles and their
    subtraction, rounded to the nearest double with ties to even, are
    those of the Standard Library's specification of binary64. *)
Definition double := spec_float.

Definition double_sub : double -> double -> double := SFsub 53 1024.

(** The double of an integer. *)
Definition double_of_Z (z : Z) : double := binary_normalize 53 1024 z 0 false.

(** The number a finite double stands for. *)
Definition double_value (x : double) : Q :=
  match x with
  | S754_finite s m e => inject_Z (cond_Zopp s (Zpos m)) * 2 ^ e
  | _ => 0
  end.

Record Probe := {
  fetch_event : FetchEvent;
  startTime : double;                 (* performance.now() of line 10 *)
  endTime : double                    (* performance.now() of line 23 *)
}.

(** The rejection of an aborted request: a DOMException named
    [AbortError]; its message is the browser's. *)
Definition AbortError (msg : jsstring) : JsError :=
  {| name := str "AbortError"; message := msg |}.

Definition fetch (ev : FetchEvent) : Completion Response :=
  match ev with
  | Responds r => Normal r
  | Fails e => Throw e
  | Aborted msg => Throw (AbortError msg)
  end.

Definition response_text (r : Response) : Completion jsstring :=
  match body r with
  | BodyText t => Normal t
  | BodyFails e => Throw e
  | BodyAborted msg => Throw (AbortError msg)
  end.

(** [Math.round]: the nearest integer, halves upwards.  The readings of
    the clock are finite, and so is their difference; an infinity or a
    NaN, which [Math.round] would hand back, does not come up. *)
Definition Math_round (x : double) : Z := Qfloor (double_value x + (1 # 2)).

(** Lines 5-8: the URL normalizer. *)
Definition normalizeUrl (rawUrl : jsstring) : jsstring :=
  let url := trim rawUrl in
  if negb (test protocolRe url) then str "https://" ++ url else url.

(** Lines 27-30: [response.headers.forEach((val, key) => headers[key] = val)].
    [headers] starts as the object literal [{}].  An assignment stores an
    own property under every key but one: [__proto__] reaches the setter
    that the object inherits, which ignores a string and stores nothing. *)
Definition collectHeaders (hs : list (jsstring * jsstring)) : gmap jsstring jsstring :=
  foldl (fun headers kv =>
           if bool_decide (kv.1 = str "__proto__") then headers
           else <[kv.1 := kv.2]> headers) ∅ hs.

(** Lines 33-39: the HTML snippet (head + start of body). *)
Definition extractSnippet (text : jsstring) : jsstring :=
  let headMatch := exec headRe text in
  let bodyMatch := exec bodyRe text in
  let snippet := [] in
  let snippet := match headMatch with Some m => snippet ++ m.1 | None => snippet end in
  let snippet :=
    match bodyMatch with Some m => snippet ++ substring0 1500 m.2 | None => snippet end in
  let snippet := if negb (nonempty snippet) then substring0 2000 text else snippet in
  snippet.

(** Lines 3-64.  The [finally] block clears the timer and leaves the
    returned value as it is. *)
Definition scanWebsite (rawUrl : jsstring) (net : Probe) : Completion ScanMetrics :=
  let url := normalizeUrl rawUrl in
  try_catch
    (response ← fetch (fetch_event net);
     text ← response_text response;
     let headers := collectHeaders (response_headers response) in
     let snippet := extractSnippet text in
     Normal {| url := url;
               statusCode := Some (status response);
               responseTimeMs := Some (Math_round (double_sub (endTime net) (startTime net)));
               headers := headers;
               htmlSnippet := Some snippet;
               fetchError := None |})
    (fun error =>
       let isAbort := bool_decide (name error = str "AbortError") in
       Normal {| url := url;
                 statusCode := None;
                 responseTimeMs := None;
                 headers := ∅;
                 htmlSnippet := None;
                 fetchError :=
                   Some (if isAbort then str "Connection Timeout"
                         else if nonempty (message error) then message error
                         else str "Network/CORS Error") |}).

(** ** services/geminiService.ts: [simulateAnalysis]

    The function awaits a 400 ms timer, which always resolves, and then
    computes its result without a call that can throw: its promise
    resolves with the value below. *)
Definition simulateAnalysis (metrics : ScanMetrics) (consoleLogs : jsstring) : AIAnalysis :=
  let isError := negb (truthy_number (statusCode metrics)) || number_ge (statusCode metrics) 400 in
  let hasLogs := nonempty consoleLogs in
  let isHttps := startsWith (str "https") (url metrics) in
  let score := 100 in
  let score := if negb isHttps then score - 20 else score in
  let score :=
    if isError then
      match statusCode metrics with
      | Some _ => score - 40
      | None => score - 15
      end
    else score in
  let score := if hasLogs then score - 15 else score in
  let score := if negb (truthy_string (htmlSnippet metrics)) then score - 10 else score in
  let score := Z.max 0 score in
  {| healthScore := score;
     seo := {|
       summary :=
         if negb (truthy_string (htmlSnippet metrics))
         then str "We couldn't read the page details because the site is blocking automated scans. This usually means security is active."
         else str "The basic setup for Google Search looks correct.";
       details := [
         if opt_includes (str "<title>") (htmlSnippet metrics)
         then str "Page title is visible to search engines" else str "Page title check skipped";
         if opt_includes (str "description") (htmlSnippet metrics)
         then str "Summary description found for search results" else str "Search summary check skipped";
         if isHttps then str "Connection is secure (HTTPS)" else str "Connection is insecure (HTTP)";
         str "Search engines understand this is the main page"
       ] |};
     accessibility := {|
       summary :=
         if negb (truthy_string (htmlSnippet metrics))
         then str "Visual accessibility check skipped due to security blocks."
         else str "The code allows screen readers to read the page.";
       details := [
         str "Browser knows which language to display";
         str "Page structure is readable by machines";
         str "Images have descriptions for the blind"
       ] |};
     privacy := {|
       privacy_findings := {|
         summary := str "Privacy basics appear to be in place.";
         details := [
           str "Privacy policy is mentioned on the page";
           str "No invasive tracking codes found";
           str "Cookie popup not immediately visible"
         ] |};
       level := if score >? 80 then LowConcern else NeedsAttention |};
     jsErrors :=
       if hasLogs then
         Some {| summary := str "Some background scripts are failing.";
                 details := [str "A feature might be broken"; str "A file failed to load"] |}
       else
         Some {| summary := str "No background errors detected.";
                 details := [str "Website code is running smoothly"] |};
     recommendations := [
       if negb isHttps
       then str "Switch to HTTPS to protect user passwords and improve Google ranking."
       else str "Double-check that your SSL security certificate renews automatically.";
       if truthy_string (fetchError metrics)
       then str "Your site is secure against bots, which is good! Use a server-tool for deeper analysis."
       else str "Add 'Schema' info so Google can show stars or prices in search results.";
       str "Ensure your cookie banner is easy to read on mobile phones."
     ] |}.

#[local] Set Warnings "-register-all".

(** ** JavaScript values

    [JSON.parse(text) as AIAnalysis] is a type assertion only: at run time
    the orchestrator returns whatever value the text denotes.  Its result
    is therefore a JavaScript value, and an [AIAnalysis] built by
    [simulateAnalysis] is the object [toJs] gives. *)
Inductive JsValue :=
  | JNull
  | JBool (b : bool)
  | JNumber (q : Q)
  | JString (s : jsstring)
  | JArray (items : list JsValue)
  | JObject (fields : list (jsstring * JsValue)).

Definition levelText (l : PrivacyLevel) : jsstring :=
  match l with
  | LowConcern => str "Low concern"
  | NeedsAttention => str "Needs attention"
  | HighConcern => str "High concern"
  end.

Definition findingsFields (f : Findings) : list (jsstring * JsValue) :=
  [(str "summary", JString (summary f));
   (str "details", JArray (map JString (details f)))].

Definition toJs (a : AIAnalysis) : JsValue :=
  JObject [
    (str "healthScore", JNumber (inject_Z (healthScore a)));
    (str "seo", JObject (findingsFields (seo a)));
    (str "accessibility", JObject (findingsFields (accessibility a)));
    (str "privacy",
      JObject (findingsFields (privacy a)
               ++ [(str "level", JString (levelText (level (privacy a))))]));
    (str "jsErrors",
      match jsErrors a with
      | Some f => JObject (findingsFields f)
      | None => JNull
      end);
    (str "recommendations", JArray (map JString (recommendations a)))
  ].

(** ** services/geminiService.ts: [analyzeWithGemini] *)

(** The environment of lines 83-91: [process] may be undefined, and
    [API_KEY] may be unset. *)
Inductive ProcessEnv :=
  | NoProcess
  | Env (API_KEY : option jsstring).

(** The value the remote call resolves with; [text] is a getter that
    yields a string or [undefined]. *)
Record GenerateContentResponse := { text : option jsstring }.

(** How [Promise.race([apiCall, timeoutPromise])] settles: with the remote
    call when it settles first, with the 15000 ms timer otherwise.  Which
    one is first is the environment's choice. *)
Inductive RaceEvent :=
  | ApiResolves (response : option GenerateContentResponse)
  | ApiRejects (e : JsError)
  | TimerFirst.

Definition race (ev : RaceEvent) : Completion (option GenerateContentResponse) :=
  match ev with
  | ApiResolves response => Normal response
  | ApiRejects e => Throw e
  | TimerFirst => Throw (Error "AI Analysis Timed Out")
  end.

Section Orchestrator.

(** [JSON.parse]: the value a text denotes, or a thrown SyntaxError. *)
Variable JSON_parse : jsstring -> Completion JsValue.

(** Lines 99-126 build the client and the prompt; the reply of the remote
    service is the environment's, so the prompt text has no part in the
    result and is left out. *)
Definition analyzeWithGemini (env : ProcessEnv) (ev : RaceEvent)
    (metrics : ScanMetrics) (consoleLogs : jsstring) : Completion JsValue :=
  let apiKey : jsstring :=
    match env with
    | Env (Some key) => if nonempty key then key else []
    | Env None => []
    | NoProcess => []
    end in
  if negb (nonempty apiKey) then
    Normal (toJs (simulateAnalysis metrics consoleLogs))
  else
    try_catch
      (response ← race ev;
       match response with
       | Some {| text := Some payload |} =>
           if nonempty payload then JSON_parse payload
           else Throw (Error "Empty response from AI")
       | _ => Throw (Error "Empty response from AI")
       end)
      (fun error => Normal (toJs (simulateAnalysis metrics consoleLogs))).

End Orchestrator.

(** ** The claims of the specification, in its own words *)

(** The deduction table of the specification, read literally: the status
    deduction of 40 for a present code of 400 or more, the snippet
    deduction for an absent snippet. *)
Definition spec_deductions (m : ScanMetrics) (L : jsstring) : Z :=
  (if startsWith (str "https") (url m) then 0 else 20)
  + match statusCode m with
    | Some c => if 400 <=? c then 40 else 0
    | None => 15
    end
  + (if nonempty L then 15 else 0)
  + match htmlSnippet m with
    | Some _ => 0
    | None => 10
    end.

(** The same table with the snippet deduction taken for an absent or
    empty snippet. *)
Definition deductions (m : ScanMetrics) (L : jsstring) : Z :=
  (if startsWith (str "https") (url m) then 0 else 20)
  + match statusCode m with
    | Some c => if 400 <=? c then 40 else 0
    | None => 15
    end
  + (if nonempty L then 15 else 0)
  + match htmlSnippet m with
    | Some (_ :: _) => 0
    | Some [] | None => 10
    end.

(** The points [simulateAnalysis] takes off on its lines 16-28. *)
Definition applied_deductions (m : ScanMetrics) (L : jsstring) : Z :=
  (if startsWith (str "https") (url m) then 0 else 20)
  + match statusCode m with
    | Some c => if (c =? 0) || (400 <=? c) then 40 else 0
    | None => 15
    end
  + (if nonempty L then 15 else 0)
  + (if truthy_string (htmlSnippet m) then 0 else 10).

Definition set_htmlSnippet (h : option jsstring) (m : ScanMetrics) : ScanMetrics :=
  {| url := url m; statusCode := statusCode m; responseTimeMs := responseTimeMs m;
     headers := headers m; htmlSnippet := h; fetchError := fetchError m |}.

(** A [ScanMetrics] value from its URL, status code, snippet and error. *)
Definition sample (u : string) (sc : option Z) (snip : option jsstring)
    (err : option jsstring) : ScanMetrics :=
  {| url := str u; statusCode := sc; responseTimeMs := (fun _ => 120) <$> sc;
     headers := ∅; htmlSnippet := snip; fetchError := err |}.



(** The shape of [AIAnalysis] in types.ts, as a test on a JavaScript
    value: an integer score, [{summary, details}] records, one of the
    three privacy levels, [jsErrors] a record or [null], and a list of
    strings. *)
Fixpoint get_field (k : jsstring) (fields : list (jsstring * JsValue)) : option JsValue :=
  match fields with
  | [] => None
  | (k', v) :: rest => if bool_decide (k' = k) then Some v else get_field k rest
  end.

Definition field (k : string) (v : JsValue) : option JsValue :=
  match v with
  | JObject fields => get_field (str k) fields
  | _ => None
  end.

Definition isInteger (v : option JsValue) : bool :=
  match v with
  | Some (JNumber q) => (Qnum q mod Zpos (Qden q) =? 0)
  | _ => false
  end.

Definition isString (v : JsValue) : bool :=
  match v with
  | JString _ => true
  | _ => false
  end.

Definition isStringArray (v : option JsValue) : bool :=
  match v with
  | Some (JArray items) => forallb isString items
  | _ => false
  end.

Definition isFindings (v : JsValue) : bool :=
  match field "summary" v with
  | Some (JString _) => isStringArray (field "details" v)
  | _ => false
  end.

Definition isLevel (v : option JsValue) : bool :=
  match v with
  | Some (JString s) =>
      bool_decide (s = str "Low concern") || bool_decide (s = str "Needs attention")
      || bool_decide (s = str "High concern")
  | _ => false
  end.

Definition matchesShape (v : JsValue) : bool :=
  isInteger (field "healthScore" v)
  && match field "seo" v with Some f => isFindings f | None => false end
  && match field "accessibility" v with Some f => isFindings f | None => false end
  && match field "privacy" v with
     | Some f => isFindings f && isLevel (field "level" f)
     | None => false
     end
  && match field "jsErrors" v with
     | Some JNull => true
     | Some f => isFindings f
     | None => false
     end
  && isStringArray (field "recommendations" v).

(** The outcomes of the remote path after which the orchestrator has no
    remote report to return. *)
Inductive RemoteFailure (JSON_parse : jsstring -> Completion JsValue)
  : ProcessEnv -> RaceEvent -> Prop :=
  | no_process ev : RemoteFailure JSON_parse NoProcess ev
  | no_api_key ev : RemoteFailure JSON_parse (Env None) ev
  | empty_api_key ev : RemoteFailure JSON_parse (Env (Some [])) ev
  | call_rejects env e : RemoteFailure JSON_parse env (ApiRejects e)
  | timer_first env : RemoteFailure JSON_parse env TimerFirst
  | no_response env : RemoteFailure JSON_parse env (ApiResolves None)
  | no_text env : RemoteFailure JSON_parse env (ApiResolves (Some {| text := None |}))
  | empty_text env : RemoteFailure JSON_parse env (ApiResolves (Some {| text := Some [] |}))
  | parse_fails env payload e :
      JSON_parse payload = Throw e ->
      RemoteFailure JSON_parse env (ApiResolves (Some {| text := Some payload |})).

(** A [JSON.parse] known at one text: ["null"] denotes [null]. *)
Definition parse_null (payload : jsstring) : Completion JsValue :=
  if bool_decide (payload = str "null") then Normal JNull
  else Throw {| name := str "SyntaxError"; message := str "Unexpected token" |}.

(** A [JSON.parse] known at one text: ["{}"] denotes the empty object. *)
Definition parse_empty_object (payload : jsstring) : Completion JsValue :=
  if bool_decide (payload = str "{}") then Normal (JObject [])
  else Throw {| name := str "SyntaxError"; message := str "Unexpected token" |}.

(** The probe fails with [e]: [fetch] rejects, or the body cannot be
    read; a request cut by the 4000 ms timer rejects with an AbortError. *)
Inductive ProbeFails (net : Probe) : JsError -> Prop :=
  | fetch_fails e :
      fetch_event net = Fails e -> ProbeFails net e
  | fetch_aborted msg :
      fetch_event net = Aborted msg -> ProbeFails net (AbortError msg)
  | body_fails r e :
      fetch_event net = Responds r -> body r = BodyFails e -> ProbeFails net e
  | body_aborted r msg :
      fetch_event net = Responds r -> body r = BodyAborted msg ->
      ProbeFails net (AbortError msg).

(** The 4000 ms timer fired before the probe was done. *)
Definition deadline_expired (net : Probe) : Prop :=
  (exists msg, fetch_event net = Aborted msg)
  \/ (exists r msg, fetch_event net = Responds r /\ body r = BodyAborted msg).

(** The probe succeeds with response [r] and body text [t]. *)
Definition ProbeSucceeds (net : Probe) (r : Response) (t : jsstring) : Prop :=
  fetch_event net = Responds r /\ body r = BodyText t.

(** A probe cut by the timer before the response arrives. *)
Definition timed_out : Probe :=
  {| fetch_event := Aborted (str "The user aborted a request.");
     startTime := double_of_Z 0; endTime := double_of_Z 0 |}.

(** A probe whose response arrives, and whose body is still being read
    when the timer fires. *)
Definition body_cut_response : Response :=
  {| status := 200;
     response_headers := [(str "content-type", str "text/html")];
     body := BodyAborted (str "The user aborted a request.") |}.

Definition body_cut : Probe :=
  {| fetch_event := Responds body_cut_response;
     startTime := double_of_Z 10; endTime := double_of_Z 52 |}.

(** A probe that fails with an error whose message is empty. *)
Definition silent_failure : Probe :=
  {| fetch_event := Fails {| name := str "TypeError"; message := [] |};
     startTime := double_of_Z 0; endTime := double_of_Z 0 |}.


(** The same response with the readings 2^-53 and 41.5 of the clock. *)
Definition half_way : Probe :=
  {| fetch_event :=
       Responds {| status := 200; response_headers := []; body := BodyText (str "ok") |};
     startTime := S754_finite false 4503599627370496 (-105);
     endTime := S754_finite false 5840605766746112 (-47) |}.

(** A probe that succeeds with a small page. *)
Definition page_text : jsstring :=
  str "<html><HEAD><title>t</title></head><body class='x'>hello</BODY></html>".

Definition page_response : Response :=
  {| status := 200;
     response_headers := [(str "content-type", str "text/html")];
     body := BodyText page_text |}.

Definition page_probe : Probe :=
  {| fetch_event := Responds page_response;
     startTime := double_of_Z 10; endTime := double_of_Z 52 |}.

Definition empty_body_response : Response :=
  {| status := 204;
     response_headers := [(str "cache-control", str "no-store")];
     body := BodyText [] |}.

(** A probe that succeeds with an empty body. *)
Definition empty_response : Probe :=
  {| fetch_event := Responds empty_body_response;
     startTime := double_of_Z 10; endTime := double_of_Z 52 |}.

(** [s] begins with [p] when letter case is ignored. *)
Fixpoint startsWith_ci (p s : jsstring) : bool :=
  match p, s with
  | [], _ => true
  | _ :: _, [] => false
  | a :: p', b :: s' => (canon b =? canon a)%N && startsWith_ci p' s'
  end.

(** The first place where [p] occurs in [s], letter case ignored: the text
    before it, and the text from it on. *)
Fixpoint find_ci (p s : jsstring) : option (jsstring * jsstring) :=
  if startsWith_ci p s then Some ([], s)
  else
    match s with
    | [] => None
    | c :: s' =>
        match find_ci p s' with
        | Some (before, from) => Some (c :: before, from)
        | None => None
        end
    end.

(** The specification's head region: from the first [<head>] to the first
    [</head>] after it; the block with its tags, and its inner text. *)
Definition head_block (text : jsstring) : option (jsstring * jsstring) :=
  '(_, from) ← find_ci (str "<head>") text;
  '(inner, closing) ← find_ci (str "</head>") (drop 6 from);
  Some (take 6 from ++ inner ++ take 7 closing, inner).

(** The specification's body region: the first [<body], its attributes up
    to the next [>], and the inner text up to the first [</body>]. *)
Definition body_block (text : jsstring) : option (jsstring * jsstring) :=
  '(_, from) ← find_ci (str "<body") text;
  '(attrs, gt) ← find_ci (str ">") (drop 5 from);
  '(inner, closing) ← find_ci (str "</body>") (drop 1 gt);
  Some (take 5 from ++ attrs ++ take 1 gt ++ inner ++ take 7 closing, inner).

(** The snippet as the specification composes it, with the fallback taken
    when the two parts together are empty. *)
Definition snippet_of_regions (text : jsstring) : jsstring :=
  let head := match head_block text with Some (block, _) => block | None => [] end in
  let body := match body_block text with Some (_, inner) => take 1500 inner | None => [] end in
  if nonempty (head ++ body) then head ++ body else take 2000 text.

(** The matched text [w] put before a match of the rest of a pattern. *)
Definition prepend (w : jsstring) (m : option rmatch_result) : option rmatch_result :=
  match m with
  | Some (w', g) => Some (w ++ w', g)
  | None => None
  end.

(** Failure that passes to every later start. *)
Definition fails_onwards (F : jsstring -> option rmatch_result) : Prop :=
  forall c x, F (c :: x) = None -> F x = None.

(** ** App.tsx and components/RadialScore.tsx *)

(** [n < k] for a nullable [n]: [null] converts to [0]. *)
Definition number_lt (n : option Z) (k : Z) : bool :=
  match n with
  | Some c => c <? k
  | None => 0 <? k
  end.

(** [s.replace(/c/g, '')] for a pattern of one character [c]. *)
Fixpoint removeChar (c : N) (s : jsstring) : jsstring :=
  match s with
  | [] => []
  | x :: s' => if (x =? c)%N then removeChar c s' else x :: removeChar c s'
  end.

(** [s.replace(/\*\*/g, '')]: the pairs of asterisks, found from left to
    right; after a pair the search goes on behind it. *)
Fixpoint removeStarPairs (s : jsstring) : jsstring :=
  match s with
  | [] => []
  | a :: t =>
      match t with
      | b :: s' =>
          if (a =? 42)%N && (b =? 42)%N then removeStarPairs s' else a :: removeStarPairs t
      | [] => [a]
      end
  end.

(** App.tsx, [cleanText]: removes the markdown symbols and trims. *)
Definition cleanText (text : jsstring) : jsstring :=
  trim (removeChar 96 (removeChar 42 (removeStarPairs text))).

(** App.tsx, [getStatusColor]. *)
Definition getStatusColor (code : option Z) : jsstring :=
  if negb (truthy_number code) then str "text-slate-400"
  else if number_ge code 200 && number_lt code 300 then str "text-green-500"
  else if number_ge code 400 then str "text-red-500"
  else str "text-amber-500".

(** App.tsx, the three texts of the technical overview card: the status
    code or ['N/A'] is left out (it prints a number); these are the line
    under the status code and the fetch mode. *)
Definition statusCaption (metrics : ScanMetrics) : jsstring :=
  if bool_decide (statusCode metrics = Some 200) then str "OK"
  else if truthy_string (fetchError metrics) then str "Fetch Failed"
  else str "Unknown".

Definition fetchMode (metrics : ScanMetrics) : jsstring :=
  if truthy_string (fetchError metrics) then str "Restricted" else str "Direct".

(** The page reads [analysis.healthScore] from whatever the analysis
    returned, so the two comparisons below meet any value.  Compared with
    a number, a value is first converted to a number: the result is a
    number proper, an infinity, or [NaN], which is what [undefined] (a
    report without the field) and a text that spells no number become. *)
Inductive JsNumber :=
  | NaN
  | NegInfinity
  | Finite (q : Q)
  | PosInfinity.

(** A score of the scoring engine, as the number it is. *)
Definition integer (z : Z) : JsNumber := Finite (inject_Z z).

(** [x < k] and [x >= k] for a number literal [k]; both are false on [NaN]. *)
Definition js_lt (x : JsNumber) (k : Z) : bool :=
  match x with
  | NaN => false
  | NegInfinity => true
  | Finite q => negb (Qle_bool (inject_Z k) q)
  | PosInfinity => false
  end.

Definition js_ge (x : JsNumber) (k : Z) : bool :=
  match x with
  | NaN => false
  | NegInfinity => false
  | Finite q => Qle_bool (inject_Z k) q
  | PosInfinity => true
  end.

(** App.tsx, the sentence under the score gauge. *)
Definition healthVerdict (score : JsNumber) : jsstring :=
  if js_ge score 80 then str "Excellent condition"
  else if js_ge score 50 then str "Needs improvements"
  else str "Critical issues found".

(** RadialScore.tsx, the colour [fill] of the gauge. *)
Definition RadialScore_fill (score : JsNumber) : jsstring :=
  let fill := str "#22c55e" in
  if js_lt score 50 then str "#ef4444"
  else if js_lt score 80 then str "#f59e0b"
  else fill.

(** The texts of a report that App.tsx passes through [cleanText]. *)
Definition displayedTexts (a : AIAnalysis) : list jsstring :=
  summary (seo a) :: details (seo a)
  ++ summary (accessibility a) :: details (accessibility a)
  ++ summary (privacy a) :: details (privacy a)
  ++ match jsErrors a with
     | Some f => summary f :: details f
     | None => []
     end
  ++ recommendations a.

(** The state of the [App] component. *)
Inductive ScanStatus :=
  | StatusIdle | StatusScanning | StatusAnalyzing | StatusComplete | StatusError.

Record AppState := {
  app_url : jsstring;
  app_logs : jsstring;
  app_status : ScanStatus;
  app_metrics : option ScanMetrics;
  app_analysis : option JsValue;
  app_errorMsg : option jsstring
}.

Definition setUrl (v : jsstring) (s : AppState) : AppState :=
  {| app_url := v; app_logs := app_logs s; app_status := app_status s;
     app_metrics := app_metrics s; app_analysis := app_analysis s;
     app_errorMsg := app_errorMsg s |}.

Definition setLogs (v : jsstring) (s : AppState) : AppState :=
  {| app_url := app_url s; app_logs := v; app_status := app_status s;
     app_metrics := app_metrics s; app_analysis := app_analysis s;
     app_errorMsg := app_errorMsg s |}.

Definition setStatus (v : ScanStatus) (s : AppState) : AppState :=
  {| app_url := app_url s; app_logs := app_logs s; app_status := v;
     app_metrics := app_metrics s; app_analysis := app_analysis s;
     app_errorMsg := app_errorMsg s |}.

Definition setMetrics (v : option ScanMetrics) (s : AppState) : AppState :=
  {| app_url := app_url s; app_logs := app_logs s; app_status := app_status s;
     app_metrics := v; app_analysis := app_analysis s;
     app_errorMsg := app_errorMsg s |}.

Definition setAnalysis (v : option JsValue) (s : AppState) : AppState :=
  {| app_url := app_url s; app_logs := app_logs s; app_status := app_status s;
     app_metrics := app_metrics s; app_analysis := v;
     app_errorMsg := app_errorMsg s |}.

Definition setErrorMsg (v : option jsstring) (s : AppState) : AppState :=
  {| app_url := app_url s; app_logs := app_logs s; app_status := app_status s;
     app_metrics := app_metrics s; app_analysis := app_analysis s;
     app_errorMsg := v |}.

(** What a state cell of type [T | null] holds once a parsed value is
    stored in it: the value [null] is the cell's [null]. *)
Definition fromNullable (v : JsValue) : option JsValue :=
  match v with
  | JNull => None
  | _ => Some v
  end.

(** The state of the first render: the arguments of the six [useState]. *)
Definition initialState : AppState :=
  {| app_url := []; app_logs := []; app_status := StatusIdle;
     app_metrics := None; app_analysis := None; app_errorMsg := None |}.

(** App.tsx, [clearAll]. *)
Definition clearAll (s : AppState) : AppState :=
  let s := setUrl [] s in
  let s := setLogs [] s in
  let s := setStatus StatusIdle s in
  let s := setMetrics None s in
  let s := setAnalysis None s in
  setErrorMsg None s.

(** App.tsx, [handleScan]: the state once its promise has settled.  [url]
    and [logs] are the values of the render in which the handler was
    made, those of the state it starts from. *)
Definition handleScan (JSON_parse : jsstring -> Completion JsValue)
    (net : Probe) (env : ProcessEnv) (ev : RaceEvent) (s : AppState)
  : Completion AppState :=
  let url := app_url s in
  let logs := app_logs s in
  if negb (nonempty url) then
    Normal (setErrorMsg (Some (str "Please enter a valid URL.")) s)
  else
    let s := setStatus StatusScanning s in
    let s := setErrorMsg None s in
    let s := setMetrics None s in
    let s := setAnalysis None s in
    scanResult ← scanWebsite url net;
    let s := setMetrics (Some scanResult) s in
    let s := setStatus StatusAnalyzing s in
    try_catch
      (aiResult ← analyzeWithGemini JSON_parse env ev scanResult logs;
       let s := setAnalysis (fromNullable aiResult) s in
       Normal (setStatus StatusComplete s))
      (fun e =>
         let s := setStatus StatusError s in
         Normal (setErrorMsg (Some (str "AI Analysis failed. Please try again.")) s)).

(** ** [handleScan] between its awaits

    [handleScan] runs in three pieces, split by its two [await]s; typing,
    [clearAll] and, once the button is enabled again, another click can
    happen between them.  A handler that has been started and has not
    finished is kept with the [url] and [logs] it was made with. *)

Inductive Phase :=
  | AwaitScan                                  (* at [await scanWebsite(url)] *)
  | AwaitAnalysis (scanResult : ScanMetrics).  (* at [await analyzeWithGemini(...)] *)

Record Pending := {
  pending_url : jsstring;
  pending_logs : jsstring;
  pending_phase : Phase
}.

(** Up to the first [await]. *)
Definition handleScan_start (s : AppState) : AppState * option Pending :=
  let url := app_url s in
  let logs := app_logs s in
  if negb (nonempty url) then
    (setErrorMsg (Some (str "Please enter a valid URL.")) s, None)
  else
    let s := setStatus StatusScanning s in
    let s := setErrorMsg None s in
    let s := setMetrics None s in
    let s := setAnalysis None s in
    (s, Some {| pending_url := url; pending_logs := logs; pending_phase := AwaitScan |}).

(** From the scan result to the second [await]. *)
Definition handleScan_scanned (scanResult : ScanMetrics) (s : AppState) : AppState :=
  let s := setMetrics (Some scanResult) s in
  setStatus StatusAnalyzing s.

(** From the settled analysis to the end. *)
Definition handleScan_analyzed (aiResult : Completion JsValue) (s : AppState) : AppState :=
  match aiResult with
  | Normal v =>
      let s := setAnalysis (fromNullable v) s in
      setStatus StatusComplete s
  | Throw e =>
      let s := setStatus StatusError s in
      setErrorMsg (Some (str "AI Analysis failed. Please try again.")) s
  end.

(** The button is disabled while the status is scanning or analyzing. *)
Definition buttonEnabled (s : AppState) : Prop :=
  app_status s <> StatusScanning /\ app_status s <> StatusAnalyzing.

Definition option_list {A} (o : option A) : list A :=
  match o with
  | Some a => [a]
  | None => []
  end.

Inductive step : AppState * list Pending -> AppState * list Pending -> Prop :=
  | step_setUrl s ps v : step (s, ps) (setUrl v s, ps)
  | step_setLogs s ps v : step (s, ps) (setLogs v s, ps)
  | step_clearAll s ps : step (s, ps) (clearAll s, ps)
  | step_click s ps :
      buttonEnabled s ->
      step (s, ps) ((handleScan_start s).1, ps ++ option_list (handleScan_start s).2)
  | step_scanned s ps1 p ps2 net m :
      pending_phase p = AwaitScan ->
      scanWebsite (pending_url p) net = Normal m ->
      step (s, ps1 ++ p :: ps2)
           (handleScan_scanned m s,
            ps1 ++ {| pending_url := pending_url p; pending_logs := pending_logs p;
                      pending_phase := AwaitAnalysis m |} :: ps2)
  | step_scan_rejected s ps1 p ps2 net e :
      pending_phase p = AwaitScan ->
      scanWebsite (pending_url p) net = Throw e ->
      step (s, ps1 ++ p :: ps2) (s, ps1 ++ ps2)
  | step_analyzed s ps1 p ps2 m JSON_parse env ev :
      pending_phase p = AwaitAnalysis m ->
      step (s, ps1 ++ p :: ps2)
           (handleScan_analyzed (analyzeWithGemini JSON_parse env ev m (pending_logs p)) s,
            ps1 ++ ps2).

(** What can be reached from the first render. *)
Definition reachable (c : AppState * list Pending) : Prop := rtc step (initialState, []) c.

(** The two blocks of the right panel: the placeholder is rendered for
    the status idle, the results for metrics that are set. *)
Definition showsPlaceholder (s : AppState) : Prop := app_status s = StatusIdle.

Definition showsResults (s : AppState) : Prop := is_Some (app_metrics s).

(** ** Words for the further properties *)

(** [p] occurs in [s] at index [k], letter case ignored. *)
Definition occurs_ci (p s : jsstring) (k : nat) : Prop :=
  startsWith_ci p (drop k s) = true.

(** Every code unit of [s] is white space. *)
Definition blank (s : jsstring) : Prop := Forall (fun c => isWhiteSpace c = true) s.

(** The headers of a response, one of them named [__proto__]. *)
Definition listed_headers : list (jsstring * jsstring) :=
  [(str "content-type", str "text/html"); (str "__proto__", str "x");
   (str "server", str "nginx")].

(** Pairs in which a name comes twice. *)
Definition twice_listed : list (jsstring * jsstring) :=
  [(str "vary", str "Origin"); (str "content-type", str "text/html");
   (str "vary", str "Accept")].

(** * Properties *)

(** ** The scoring engine *)

Lemma healthScore_applied m L :
  healthScore (simulateAnalysis m L) = Z.max 0 (100 - applied_deductions m L).
Proof.
  unfold simulateAnalysis, applied_deductions; cbn [healthScore].
  destruct (startsWith (str "https") (url m)); cbn [negb];
    destruct (statusCode m) as [c|]; cbn [truthy_number number_ge negb orb];
    [ destruct (c =? 0), (400 <=? c) | | destruct (c =? 0), (400 <=? c) | ];
    cbn [negb orb]; destruct (nonempty L);
    destruct (truthy_string (htmlSnippet m)); cbn [negb]; reflexivity.
Qed.

Lemma applied_deductions_range m L : 0 <= applied_deductions m L <= 85.
Proof.
  unfold applied_deductions.
  destruct (startsWith _ _), (statusCode m) as [c|]; [ destruct (_ || _) | | destruct (_ || _) | ];
    destruct (nonempty L), (truthy_string _); lia.
Qed.

Lemma healthScore_exact m L :
  healthScore (simulateAnalysis m L) = 100 - applied_deductions m L.
Proof.
  rewrite healthScore_applied. pose proof (applied_deductions_range m L). lia.
Qed.

Lemma applied_deductions_nonzero_status m L :
  statusCode m <> Some 0 -> applied_deductions m L = deductions m L.
Proof.
  intros Hsc. unfold applied_deductions, deductions.
  destruct (statusCode m) as [c|].
  - assert ((c =? 0) = false) as -> by (apply Z.eqb_neq; congruence).
    destruct (htmlSnippet m) as [[|? ?]|]; reflexivity.
  - destruct (htmlSnippet m) as [[|? ?]|]; reflexivity.
Qed.

(** C1 (as amended): away from the status code 0, the score is 100 minus
    the deductions of the table, floored at 0, where the snippet deduction
    is taken for an absent or empty snippet.  In particular: an https URL
    with status 200, a non-empty snippet and empty logs gives 100; the
    same with status 404 gives 60; a URL that is not https with status
    500, non-empty logs and no snippet gives 15; an https URL with no
    status code, empty logs and a non-empty snippet gives 85, whatever
    [fetchError] holds. *)
Theorem healthScore_deductions :
  (forall m L, statusCode m <> Some 0 ->
     healthScore (simulateAnalysis m L) = Z.max 0 (100 - deductions m L))
  /\ (forall m, startsWith (str "https") (url m) = true -> statusCode m = Some 200 ->
        truthy_string (htmlSnippet m) = true ->
        healthScore (simulateAnalysis m []) = 100)
  /\ (forall m, startsWith (str "https") (url m) = true -> statusCode m = Some 404 ->
        truthy_string (htmlSnippet m) = true ->
        healthScore (simulateAnalysis m []) = 60)
  /\ (forall m L, startsWith (str "https") (url m) = false -> statusCode m = Some 500 ->
        nonempty L = true -> htmlSnippet m = None ->
        healthScore (simulateAnalysis m L) = 15)
  /\ (forall m, startsWith (str "https") (url m) = true -> statusCode m = None ->
        truthy_string (htmlSnippet m) = true ->
        healthScore (simulateAnalysis m []) = 85).
Proof.
  split; [|repeat split].
  - intros m L Hsc.
    rewrite healthScore_applied, applied_deductions_nonzero_status by assumption.
    reflexivity.
  - intros m Hu Hs Hh. rewrite healthScore_exact. unfold applied_deductions.
    rewrite Hu, Hs, Hh. reflexivity.
  - intros m Hu Hs Hh. rewrite healthScore_exact. unfold applied_deductions.
    rewrite Hu, Hs, Hh. reflexivity.
  - intros m L Hu Hs HL Hh. rewrite healthScore_exact. unfold applied_deductions.
    rewrite Hu, Hs, HL, Hh. reflexivity.
  - intros m Hu Hs Hh. rewrite healthScore_exact. unfold applied_deductions.
    rewrite Hu, Hs, Hh. reflexivity.
Qed.

(** The four sample inputs of the specification's score arithmetic. *)
Example healthScore_samples :
  healthScore (simulateAnalysis
    (sample "https://ok.example" (Some 200) (Some (str "<html>")) None) []) = 100
  /\ healthScore (simulateAnalysis
       (sample "https://ok.example" (Some 404) (Some (str "<html>")) None) []) = 60
  /\ healthScore (simulateAnalysis
       (sample "http://ok.example" (Some 500) None None) (str "TypeError: x")) = 15
  /\ healthScore (simulateAnalysis
       (sample "https://ok.example" None (Some (str "<html>")) (Some (str "Failed to fetch"))) [])
     = 85.
Proof. repeat split; vm_compute; reflexivity. Qed.

Lemma healthScore_deductions_witness :
  statusCode (sample "http://shop.example" (Some 503) (Some []) None) <> Some 0
  /\ healthScore (simulateAnalysis
       (sample "http://shop.example" (Some 503) (Some []) None) (str "ReferenceError"))
     = Z.max 0 (100 - deductions (sample "http://shop.example" (Some 503) (Some []) None)
                        (str "ReferenceError")).
Proof.
  assert (statusCode (sample "http://shop.example" (Some 503) (Some []) None) <> Some 0) as H
    by discriminate.
  split; [exact H|].
  exact (proj1 healthScore_deductions _ (str "ReferenceError") H).
Defined.

(** C1, the counterexample: with a present but empty snippet the code
    takes the 10 points off, the table read literally does not. *)
Lemma healthScore_spec_deductions_fails :
  healthScore (simulateAnalysis (sample "https://ok.example" (Some 200) (Some []) None) []) = 90
  /\ Z.max 0 (100 - spec_deductions (sample "https://ok.example" (Some 200) (Some []) None) [])
     = 100.
Proof. split; vm_compute; reflexivity. Qed.

(** Where the status code is 0 the code takes the 40 points off. *)
Example healthScore_status_zero :
  healthScore (simulateAnalysis (sample "https://ok.example" (Some 0) (Some (str "<html>")) None) [])
  = 60.
Proof. vm_compute. reflexivity. Qed.

(** C7 (as amended): the deductions add up to at most 85, because the
    status deductions of 40 and 15 exclude each other; the score is 100
    minus the deductions and lies between 15 and 100, both attained, so
    the floor at 0 never acts. *)
Theorem deductions_at_most_85 :
  (forall m L,
     0 <= applied_deductions m L <= 85
     /\ healthScore (simulateAnalysis m L) = 100 - applied_deductions m L
     /\ 15 <= healthScore (simulateAnalysis m L) <= 100)
  /\ (exists m L, applied_deductions m L = 85 /\ healthScore (simulateAnalysis m L) = 15)
  /\ (exists m L, applied_deductions m L = 0 /\ healthScore (simulateAnalysis m L) = 100).
Proof.
  split; [| split].
  - intros m L. pose proof (applied_deductions_range m L).
    rewrite healthScore_exact. lia.
  - exists (sample "http://ok.example" (Some 500) None None), (str "TypeError: x").
    split; vm_compute; reflexivity.
  - exists (sample "https://ok.example" (Some 200) (Some (str "<html>")) None), [].
    split; vm_compute; reflexivity.
Qed.

(** C7, the counterexample: no input has a score of 0, and none has
    deductions of 100. *)
Lemma score_zero_unattainable :
  ~ (exists m L, healthScore (simulateAnalysis m L) = 0 \/ applied_deductions m L = 100).
Proof.
  intros (m & L & H). pose proof (applied_deductions_range m L).
  rewrite healthScore_exact in H. lia.
Qed.

(** C10: [jsErrors] is never null; it is the failing-scripts record when
    the logs are non-empty and the no-errors record when they are empty. *)
Theorem jsErrors_never_null m L :
  jsErrors (simulateAnalysis m L) =
    Some (if nonempty L
          then {| summary := str "Some background scripts are failing.";
                  details := [str "A feature might be broken"; str "A file failed to load"] |}
          else {| summary := str "No background errors detected.";
                  details := [str "Website code is running smoothly"] |})
  /\ jsErrors (simulateAnalysis m L) <> None
  /\ field "jsErrors" (toJs (simulateAnalysis m L)) <> Some JNull.
Proof.
  unfold simulateAnalysis; cbn [jsErrors].
  destruct (nonempty L); repeat split; try discriminate;
    unfold toJs; cbn [jsErrors]; vm_compute; discriminate.
Qed.

(** ** The probe *)

Lemma scanWebsite_failure raw net e :
  ProbeFails net e ->
  scanWebsite raw net =
    Normal {| url := normalizeUrl raw; statusCode := None; responseTimeMs := None;
              headers := ∅; htmlSnippet := None;
              fetchError :=
                Some (if bool_decide (name e = str "AbortError") then str "Connection Timeout"
                      else if nonempty (message e) then message e
                      else str "Network/CORS Error") |}.
Proof.
  intros [e' H|msg H|r e' H Hb|r msg H Hb]; unfold scanWebsite; rewrite H; cbn;
    try (unfold response_text; rewrite Hb; cbn); reflexivity.
Qed.

Lemma scanWebsite_success raw net r t :
  ProbeSucceeds net r t ->
  scanWebsite raw net =
    Normal {| url := normalizeUrl raw; statusCode := Some (status r);
              responseTimeMs := Some (Math_round (double_sub (endTime net) (startTime net)));
              headers := collectHeaders (response_headers r);
              htmlSnippet := Some (extractSnippet t); fetchError := None |}.
Proof.
  intros [H Hb]. unfold scanWebsite. rewrite H. cbn.
  unfold response_text. rewrite Hb. reflexivity.
Qed.

Lemma probe_outcomes net :
  (exists r t, ProbeSucceeds net r t) \/ (exists e, ProbeFails net e).
Proof.
  destruct (fetch_event net) as [r|e|msg] eqn:H.
  - destruct (body r) as [t|e|msg] eqn:Hb.
    + left. exists r, t. split; assumption.
    + right. exists e. eapply body_fails; eassumption.
    + right. exists (AbortError msg). eapply body_aborted; eassumption.
  - right. exists e. apply fetch_fails; assumption.
  - right. exists (AbortError msg). apply fetch_aborted; assumption.
Qed.

Lemma scanWebsite_resolves raw net : exists m, scanWebsite raw net = Normal m.
Proof.
  destruct (probe_outcomes net) as [(r & t & Hok)|[e He]]; eexists.
  - apply scanWebsite_success; eassumption.
  - apply scanWebsite_failure; eassumption.
Qed.

Lemma deadline_expired_fails net :
  deadline_expired net -> exists msg, ProbeFails net (AbortError msg).
Proof.
  intros [[msg H]|(r & msg & H & Hb)]; exists msg.
  - apply fetch_aborted; assumption.
  - eapply body_aborted; eassumption.
Qed.

(** C3 (as amended): the probe always resolves; when it fails, the status
    code, the response time and the snippet are absent, the headers are
    empty, and [fetchError] is "Connection Timeout" for an AbortError (so
    whenever the deadline expired), otherwise the error's message when
    that is non-empty and "Network/CORS Error" when it is empty. *)
Theorem scanWebsite_never_rejects raw net :
  exists m, scanWebsite raw net = Normal m
    /\ (forall e, ProbeFails net e ->
          statusCode m = None /\ responseTimeMs m = None /\ headers m = ∅
          /\ htmlSnippet m = None
          /\ fetchError m =
               Some (if bool_decide (name e = str "AbortError") then str "Connection Timeout"
                     else if nonempty (message e) then message e
                     else str "Network/CORS Error"))
    /\ (deadline_expired net -> fetchError m = Some (str "Connection Timeout")).
Proof.
  destruct (probe_outcomes net) as [(r & t & Hok)|[e He]].
  - eexists; split; [apply scanWebsite_success; eassumption|].
    destruct Hok as [H Hb]. split.
    + intros e [e' H'|msg H'|r' e' H' Hb'|r' msg H' Hb']; congruence.
    + intros [[msg H']|(r' & msg & H' & Hb')]; congruence.
  - eexists; split; [apply scanWebsite_failure; eassumption|].
    split.
    + intros e' He'. cbn [statusCode responseTimeMs headers htmlSnippet fetchError].
      pose proof (scanWebsite_failure raw _ _ He) as H1.
      rewrite (scanWebsite_failure raw _ _ He') in H1. injection H1 as H1.
      rewrite <- H1. repeat split; reflexivity.
    + intros Hd. destruct (deadline_expired_fails _ Hd) as [msg Hm]. cbn [fetchError].
      pose proof (scanWebsite_failure raw _ _ He) as H1.
      rewrite (scanWebsite_failure raw _ _ Hm) in H1. injection H1 as H1.
      rewrite <- H1. reflexivity.
Qed.

Lemma scanWebsite_never_rejects_witness :
  ProbeFails timed_out (AbortError (str "The user aborted a request."))
  /\ deadline_expired timed_out
  /\ exists m, scanWebsite (str "slow.example") timed_out = Normal m
       /\ statusCode m = None /\ responseTimeMs m = None /\ headers m = ∅
       /\ htmlSnippet m = None
       /\ fetchError m = Some (str "Connection Timeout").
Proof.
  assert (ProbeFails timed_out (AbortError (str "The user aborted a request."))) as Hf
    by (apply fetch_aborted; reflexivity).
  assert (deadline_expired timed_out) as Hd by (left; eexists; reflexivity).
  split; [exact Hf|]. split; [exact Hd|].
  destruct (scanWebsite_never_rejects (str "slow.example") timed_out) as (m & Hm & He & Ht).
  exists m. destruct (He _ Hf) as (H1 & H2 & H3 & H4 & _).
  repeat split; try assumption. exact (Ht Hd).
Defined.

(** C3, the counterexample: an error with an empty message leaves
    "Network/CORS Error" in [fetchError], not the error's own text. *)
Lemma fetchError_not_the_message :
  exists m e, scanWebsite (str "example.com") silent_failure = Normal m
    /\ ProbeFails silent_failure e
    /\ name e <> str "AbortError"
    /\ fetchError m = Some (str "Network/CORS Error")
    /\ fetchError m <> Some (message e).
Proof.
  eexists; exists {| name := str "TypeError"; message := [] |}.
  split; [reflexivity|]. split; [apply fetch_fails; reflexivity|].
  repeat split; vm_compute; discriminate || reflexivity.
Qed.




(** ** The report of the scoring engine *)






(** ** The orchestrator *)

Lemma analyzeWithGemini_failure JSON_parse env ev m L :
  RemoteFailure JSON_parse env ev ->
  analyzeWithGemini JSON_parse env ev m L = Normal (toJs (simulateAnalysis m L)).
Proof.
  intros H. unfold analyzeWithGemini.
  destruct H; try reflexivity;
    destruct env as [|[[|c key]|]]; try reflexivity.
  all: cbn; rewrite H; destruct (nonempty payload); reflexivity.
Qed.



(** C4 (as amended): after a failure of the remote path the result is
    the report of the scoring engine on the same inputs; otherwise a
    credential is set, the remote call is first with a non-empty text that
    parses, and the result is the parsed value, whatever its shape. *)
Theorem analyzeWithGemini_outcome JSON_parse env ev m L :
  (RemoteFailure JSON_parse env ev
   /\ analyzeWithGemini JSON_parse env ev m L = Normal (toJs (simulateAnalysis m L)))
  \/ (exists key payload v,
        env = Env (Some key) /\ key <> []
        /\ ev = ApiResolves (Some {| text := Some payload |}) /\ payload <> []
        /\ JSON_parse payload = Normal v
        /\ analyzeWithGemini JSON_parse env ev m L = Normal v).
Proof.
  assert (forall P : Prop, (RemoteFailure JSON_parse env ev -> P) ->
            RemoteFailure JSON_parse env ev ->
            RemoteFailure JSON_parse env ev /\ P) as conj' by auto.
  destruct env as [|[[|c key]|]];
    try (left; apply conj'; [apply analyzeWithGemini_failure | constructor]).
  destruct ev as [[[[[|d payload]|]]|]|e|];
    try (left; apply conj'; [apply analyzeWithGemini_failure | constructor]).
  destruct (JSON_parse (d :: payload)) as [v|e] eqn:Hp.
  - right. exists (c :: key), (d :: payload), v.
    repeat split; try discriminate; try assumption.
    cbn. rewrite Hp. reflexivity.
  - left. apply conj'; [apply analyzeWithGemini_failure|].
    eapply parse_fails; eassumption.
Qed.

(** C4, the counterexample: the text ["{}"] parses, so the orchestrator
    returns the empty object, which has none of the fields of
    [AIAnalysis] and is not the report of the scoring engine. *)
Lemma unchecked_payload_returned :
  analyzeWithGemini parse_empty_object (Env (Some (str "key")))
    (ApiResolves (Some {| text := Some (str "{}") |}))
    (sample "https://ok.example" (Some 200) (Some (str "<html>")) None) []
  = Normal (JObject [])
  /\ matchesShape (JObject []) = false
  /\ toJs (simulateAnalysis
       (sample "https://ok.example" (Some 200) (Some (str "<html>")) None) [])
     <> JObject [].
Proof. repeat split; vm_compute; reflexivity || discriminate. Qed.

(** ** The regular expressions *)

Lemma rmatch_lazy k r bol s :
  rmatch (LazyGroup k :: r) bol s =
    match rmatch r bol s with
    | Some (w, _) => Some (w, [])
    | None =>
        match s with
        | c :: s' =>
            if cls_match k c then capture c (rmatch (LazyGroup k :: r) false s') else None
        | [] => None
        end
    end.
Proof. destruct s; reflexivity. Qed.

Lemma rmatch_star k r bol s :
  rmatch (Star k :: r) bol s =
    match s with
    | c :: s' =>
        if cls_match k c then
          match rmatch (Star k :: r) false s' with
          | Some m => consume c (Some m)
          | None => rmatch r bol s
          end
        else rmatch r bol s
    | [] => rmatch r bol s
    end.
Proof. destruct s; reflexivity. Qed.

Lemma consume_prepend c w m : consume c (prepend w m) = prepend (c :: w) m.
Proof. destruct m as [[? ?]|]; reflexivity. Qed.

Lemma prepend_nil m : prepend [] m = m.
Proof. destruct m as [[? ?]|]; reflexivity. Qed.

(** A literal prefix of a pattern matches exactly the texts that begin
    with it, letter case ignored. *)
Lemma rmatch_chars p r bol s :
  p <> [] ->
  rmatch (chars p ++ r) bol s =
    if startsWith_ci p s
    then prepend (take (length p) s) (rmatch r false (drop (length p) s))
    else None.
Proof.
  revert bol s. induction p as [|a p IH]; intros bol s Hp; [congruence|].
  destruct s as [|b s]; [reflexivity|].
  unfold chars in *. cbn [map app rmatch cls_match startsWith_ci length take drop].
  destruct (canon b =? canon a)%N; [|reflexivity]. cbn [andb].
  destruct p as [|a' p].
  - cbn [map app startsWith_ci length]. rewrite take_0, drop_0.
    destruct (rmatch r false s) as [[? ?]|]; reflexivity.
  - rewrite IH by discriminate.
    destruct (startsWith_ci (a' :: p) s); [|reflexivity].
    apply consume_prepend.
Qed.

Lemma rmatch_chars_end p bol s :
  p <> [] ->
  rmatch (chars p) bol s = if startsWith_ci p s then Some (take (length p) s, []) else None.
Proof.
  intros Hp. rewrite <- (app_nil_r (chars p)), rmatch_chars by assumption.
  destruct (startsWith_ci p s); [|reflexivity].
  cbn. rewrite app_nil_r. reflexivity.
Qed.

Lemma startsWith_ci_app p q s :
  startsWith_ci (p ++ q) s = startsWith_ci p s && startsWith_ci q (drop (length p) s).
Proof.
  revert s. induction p as [|a p IH]; intros s; [reflexivity|].
  destruct s as [|b s].
  - cbn. destruct (p ++ q); reflexivity.
  - cbn [app startsWith_ci length drop]. rewrite IH, andb_assoc. reflexivity.
Qed.

Lemma find_ci_split p s before from :
  find_ci p s = Some (before, from) ->
  s = before ++ from /\ startsWith_ci p from = true.
Proof.
  revert before from. induction s as [|c s IH]; intros before from; cbn [find_ci].
  - destruct (startsWith_ci p []) eqn:E; [|discriminate].
    intros [= <- <-]. auto.
  - destruct (startsWith_ci p (c :: s)) eqn:E.
    + intros [= <- <-]. auto.
    + destruct (find_ci p s) as [[b f]|]; [|discriminate].
      intros [= <- <-]. destruct (IH b f eq_refl) as [-> ?]. auto.
Qed.

(** No occurrence starts inside the text before the first one. *)
Lemma find_ci_first p s before from :
  find_ci p s = Some (before, from) ->
  forall k, (k < length before)%nat -> startsWith_ci p (drop k s) = false.
Proof.
  revert before from. induction s as [|c s IH]; intros before from; cbn [find_ci].
  - destruct (startsWith_ci p []); [|discriminate]. intros [= <- <-] k Hk. cbn in Hk. lia.
  - destruct (startsWith_ci p (c :: s)) eqn:E.
    + intros [= <- <-] k Hk. cbn in Hk. lia.
    + destruct (find_ci p s) as [[b f]|]; [|discriminate].
      intros [= <- <-] [|k] Hk; [exact E|].
      cbn in Hk. cbn [drop]. apply (IH b f eq_refl). lia.
Qed.

Lemma find_ci_none p s :
  find_ci p s = None -> forall k, startsWith_ci p (drop k s) = false.
Proof.
  induction s as [|c s IH]; cbn [find_ci].
  - destruct (startsWith_ci p []) eqn:E; [discriminate|]. intros _ k. rewrite drop_nil. exact E.
  - destruct (startsWith_ci p (c :: s)) eqn:E; [discriminate|].
    destruct (find_ci p s) as [[b f]|]; [discriminate|].
    intros _ [|k]; [exact E|]. apply IH. reflexivity.
Qed.

(** The lazy group before a closing literal stops at the first place
    where the literal occurs. *)
Lemma rmatch_lazy_until q bol s :
  q <> [] ->
  rmatch (LazyGroup AnyChar :: chars q) bol s =
    match find_ci q s with
    | Some (inner, closing) => Some (inner ++ take (length q) closing, inner)
    | None => None
    end.
Proof.
  intros Hq. revert bol. induction s as [|c s IH]; intros bol;
    rewrite rmatch_lazy, rmatch_chars_end by assumption; cbn [find_ci].
  - destruct (startsWith_ci q []); reflexivity.
  - destruct (startsWith_ci q (c :: s)); [reflexivity|].
    cbn [cls_match]. rewrite IH.
    destruct (find_ci q s) as [[inner closing]|]; reflexivity.
Qed.

(** The greedy star of [[^g]] before the character [g] stops at the
    first [g]: giving characters back never helps. *)
Lemma rmatch_star_until g r bol s :
  rmatch (Star (NotChar g) :: Chr (Lit g) :: r) bol s =
    match find_ci [g] s with
    | Some (attrs, gt) => prepend (attrs ++ take 1 gt) (rmatch r false (drop 1 gt))
    | None => None
    end.
Proof.
  revert bol. induction s as [|c s IH]; intros bol; rewrite rmatch_star; [reflexivity|].
  cbn [find_ci startsWith_ci cls_match rmatch]. rewrite andb_true_r.
  destruct (canon c =? canon g)%N; cbn [negb].
  - change (drop 1 (c :: s)) with s.
    destruct (rmatch r false s) as [[? ?]|]; reflexivity.
  - rewrite IH. destruct (find_ci [g] s) as [[attrs gt]|]; [|reflexivity].
    destruct (rmatch r false (drop 1 gt)) as [[w g0]|]; reflexivity.
Qed.

Lemma fails_onwards_drop F k x : fails_onwards F -> F x = None -> F (drop k x) = None.
Proof.
  intros HF. revert x. induction k as [|k IH]; intros x Hx; [rewrite drop_0; exact Hx|].
  destruct x as [|c x]; [exact Hx|]. cbn [drop]. apply IH, (HF c), Hx.
Qed.

Lemma find_ci_onwards q : fails_onwards (fun y =>
  match find_ci q y with
  | Some (inner, closing) => Some (inner ++ take (length q) closing, inner)
  | None => None
  end).
Proof.
  intros c x. cbn [find_ci]. destruct (startsWith_ci q (c :: x)); [discriminate|].
  destruct (find_ci q x) as [[? ?]|]; [discriminate | reflexivity].
Qed.

Lemma find_ci_later p c x before from before' from' :
  find_ci p (c :: x) = Some (before, from) ->
  find_ci p x = Some (before', from') ->
  exists j, from' = drop j from.
Proof.
  cbn [find_ci]. destruct (startsWith_ci p (c :: x)).
  - intros [= <- <-] H. apply find_ci_split in H as [-> _].
    exists (S (length before')). cbn [drop]. rewrite drop_app_length. reflexivity.
  - intros H1 H2. rewrite H2 in H1. injection H1 as <- <-. exists 0%nat. reflexivity.
Qed.

(** The search for a pattern that begins with a literal: when the rest of
    the pattern fails after the first occurrence of the literal, it fails
    after every later one, so the first occurrence decides. *)
Lemma search_chars p r bol s :
  p <> [] ->
  fails_onwards (rmatch r false) ->
  search (chars p ++ r) bol s =
    match find_ci p s with
    | Some (_, from) => prepend (take (length p) from) (rmatch r false (drop (length p) from))
    | None => None
    end.
Proof.
  intros Hp HF. revert bol. induction s as [|c s IH]; intros bol;
    cbn [search find_ci]; rewrite rmatch_chars by assumption.
  - destruct (startsWith_ci p []); [|reflexivity].
    destruct (prepend _ _); reflexivity.
  - destruct (startsWith_ci p (c :: s)) eqn:E.
    + destruct (rmatch r false (drop (length p) (c :: s))) as [[w g]|] eqn:Hr; [reflexivity|].
      cbn [prepend]. rewrite IH.
      destruct (find_ci p s) as [[before from]|] eqn:Hf; [|reflexivity].
      apply find_ci_split in Hf as [-> _].
      replace (drop (length p) from)
        with (drop (S (length before)) (drop (length p) (c :: before ++ from))).
      * rewrite (fails_onwards_drop _ _ _ HF Hr). reflexivity.
      * rewrite drop_drop, Nat.add_comm, <- drop_drop. cbn [drop].
        rewrite drop_app_length. reflexivity.
    + rewrite IH. destruct (find_ci p s) as [[before from]|]; reflexivity.
Qed.

Lemma search_bol r s : search (Bol :: r) false s = None.
Proof. induction s as [|c s IH]; [reflexivity | exact IH]. Qed.

(** [text.match(/<head>([\s\S]*?)<\/head>/i)] finds the head region. *)
Lemma exec_headRe text : exec headRe text = head_block text.
Proof.
  unfold exec, headRe, lits, head_block.
  rewrite search_chars.
  - destruct (find_ci (str "<head>") text) as [[before from]|]; [|reflexivity].
    cbn [mbind option_bind]. change (length (str "<head>")) with 6%nat.
    rewrite rmatch_lazy_until by discriminate. change (length (str "</head>")) with 7%nat.
    destruct (find_ci (str "</head>") (drop 6 from)) as [[inner closing]|]; reflexivity.
  - discriminate.
  - intros c x. rewrite !rmatch_lazy_until by discriminate. apply find_ci_onwards.
Qed.

Lemma rmatch_body_rest_onwards :
  fails_onwards
    (rmatch (Star (NotChar 62) :: Chr (Lit 62) :: LazyGroup AnyChar :: chars (str "</body>"))
       false).
Proof.
  intros c x. rewrite !rmatch_star_until.
  destruct (find_ci [62%N] x) as [[attrs' gt']|] eqn:Hx; [|reflexivity].
  destruct (find_ci [62%N] (c :: x)) as [[attrs gt]|] eqn:Hcx.
  - destruct (find_ci_later _ _ _ _ _ _ _ Hcx Hx) as [j ->].
    destruct (rmatch _ false (drop 1 gt)) as [[? ?]|] eqn:Hr; [discriminate|]. intros _.
    rewrite drop_drop, Nat.add_comm, <- drop_drop.
    rewrite fails_onwards_drop; [reflexivity | | exact Hr].
    intros c' x'. rewrite !rmatch_lazy_until by discriminate. apply find_ci_onwards.
  - cbn [find_ci] in Hcx. rewrite Hx in Hcx.
    destruct (startsWith_ci [62%N] (c :: x)); discriminate.
Qed.

(** [text.match(/<body[^>]*>([\s\S]*?)<\/body>/i)] finds the body region. *)
Lemma exec_bodyRe text : exec bodyRe text = body_block text.
Proof.
  unfold exec, bodyRe, lits, body_block.
  rewrite search_chars; [| discriminate | apply rmatch_body_rest_onwards].
  destruct (find_ci (str "<body") text) as [[before from]|]; [|reflexivity].
  cbn [mbind option_bind]. change (length (str "<body")) with 5%nat.
  rewrite rmatch_star_until. change (str ">") with [62%N].
  destruct (find_ci [62%N] (drop 5 from)) as [[attrs gt]|]; [|reflexivity].
  cbn [mbind option_bind]. rewrite rmatch_lazy_until by discriminate.
  change (length (str "</body>")) with 7%nat.
  destruct (find_ci (str "</body>") (drop 1 gt)) as [[inner closing]|]; [|reflexivity].
  cbn [prepend]. rewrite <- !app_assoc. reflexivity.
Qed.

Lemma search_bol_start r s : search (Bol :: r) true s = rmatch r true s.
Proof.
  destruct s as [|c s]; cbn [search rmatch]; destruct (rmatch r true _); try reflexivity.
  apply search_bol.
Qed.

(** [/^https?:\/\//i.test(url)] tells whether [url] begins with
    [http://] or [https://], letter case ignored. *)
Lemma test_protocolRe s :
  test protocolRe s = startsWith_ci (str "http://") s || startsWith_ci (str "https://") s.
Proof.
  unfold test, exec, protocolRe, lits. rewrite search_bol_start, rmatch_chars by discriminate.
  change (str "http://") with (str "http" ++ str "://").
  change (str "https://") with (str "http" ++ [115%N] ++ str "://").
  rewrite !startsWith_ci_app. change (length (str "http")) with 4%nat.
  destruct (startsWith_ci (str "http") s); [|reflexivity]. cbn [andb].
  destruct (drop 4 s) as [|c x]; [reflexivity|].
  cbn [rmatch cls_match startsWith_ci length]. rewrite andb_true_r.
  change (drop 1 (c :: x)) with x.
  rewrite !rmatch_chars_end by discriminate.
  destruct (canon c =? canon 115)%N; cbn [andb].
  - destruct (startsWith_ci (str "://") x); cbn [consume prepend].
    + rewrite orb_true_r. reflexivity.
    + rewrite orb_false_r.
      destruct (startsWith_ci (str "://") (c :: x)); reflexivity.
  - rewrite orb_false_r. destruct (startsWith_ci (str "://") (c :: x)); reflexivity.
Qed.

(** ** Trimming *)

Lemma trimStart_split s :
  exists lead, s = lead ++ trimStart s
    /\ Forall (fun c => isWhiteSpace c = true) lead
    /\ (forall c, head (trimStart s) = Some c -> isWhiteSpace c = false).
Proof.
  induction s as [|c s (lead & Hs & Hl & Hh)].
  - exists []. repeat split; [constructor | discriminate].
  - cbn [trimStart]. destruct (isWhiteSpace c) eqn:E.
    + exists (c :: lead). cbn [app]. rewrite <- Hs. repeat split; [|exact Hh].
      constructor; assumption.
    + exists []. repeat split; [constructor|]. intros c' [= <-]. exact E.
Qed.

Lemma trim_split s :
  exists lead trail, s = lead ++ trim s ++ trail
    /\ Forall (fun c => isWhiteSpace c = true) lead
    /\ Forall (fun c => isWhiteSpace c = true) trail
    /\ (forall c, head (trim s) = Some c -> isWhiteSpace c = false)
    /\ (forall c, last (trim s) = Some c -> isWhiteSpace c = false).
Proof.
  destruct (trimStart_split s) as (lead & Hs & Hl & Hh).
  destruct (trimStart_split (reverse (trimStart s))) as (trail & Hr & Ht & Hhr).
  assert (trimStart s = trim s ++ reverse trail) as Hts.
  { unfold trim, trimEnd. rewrite <- reverse_app, <- Hr, reverse_involutive. reflexivity. }
  exists lead, (reverse trail). split; [rewrite <- Hts; exact Hs|].
  split; [exact Hl|]. split; [apply Forall_reverse; exact Ht|]. split.
  - intros c Hc. apply Hh. rewrite Hts.
    apply head_Some in Hc as [l' ->]. reflexivity.
  - intros c Hc. apply Hhr. unfold trim, trimEnd in Hc.
    rewrite last_reverse in Hc. exact Hc.
Qed.

(** ** The URL normalizer *)

Lemma scanWebsite_url raw net m : scanWebsite raw net = Normal m -> url m = normalizeUrl raw.
Proof.
  destruct (probe_outcomes net) as [(r & t & Hok)|[e He]].
  - rewrite (scanWebsite_success raw _ _ _ Hok). intros [= <-]. reflexivity.
  - rewrite (scanWebsite_failure raw _ _ He). intros [= <-]. reflexivity.
Qed.

(** C8: the normalizer returns the trimmed input when that begins with
    [http://] or [https://], letter case ignored, and [https://] followed
    by the trimmed input otherwise; the trimmed input is the input without
    its leading and trailing white space; and the stage cannot fail:
    whatever the network does, the probe resolves with the normalized
    URL. *)
Theorem normalizeUrl_spec raw :
  normalizeUrl raw =
    (if startsWith_ci (str "http://") (trim raw) || startsWith_ci (str "https://") (trim raw)
     then trim raw
     else str "https://" ++ trim raw)
  /\ (exists lead trail,
        raw = lead ++ trim raw ++ trail
        /\ Forall (fun c => isWhiteSpace c = true) lead
        /\ Forall (fun c => isWhiteSpace c = true) trail
        /\ (forall c, head (trim raw) = Some c -> isWhiteSpace c = false)
        /\ (forall c, last (trim raw) = Some c -> isWhiteSpace c = false))
  /\ (forall net, exists m, scanWebsite raw net = Normal m /\ url m = normalizeUrl raw).
Proof.
  split; [|split].
  - unfold normalizeUrl. rewrite test_protocolRe.
    destruct (_ || _); reflexivity.
  - apply trim_split.
  - intros net. destruct (scanWebsite_resolves raw net) as [m Hm].
    exists m. split; [exact Hm | eapply scanWebsite_url; exact Hm].
Qed.

(** ** The feature extractor *)

Lemma extractSnippet_regions text : extractSnippet text = snippet_of_regions text.
Proof.
  unfold extractSnippet, snippet_of_regions, substring0.
  rewrite exec_headRe, exec_bodyRe.
  destruct (head_block text) as [[hb hi]|], (body_block text) as [[bb bi]|];
    cbn [fst snd app]; rewrite ?app_nil_r; try (destruct (nonempty _); reflexivity).
Qed.

Lemma head_block_nonempty text block inner :
  head_block text = Some (block, inner) -> nonempty block = true.
Proof.
  unfold head_block.
  destruct (find_ci (str "<head>") text) as [[before from]|] eqn:Hf; [|discriminate].
  cbn [mbind option_bind].
  destruct (find_ci (str "</head>") (drop 6 from)) as [[i closing]|]; [|discriminate].
  intros [= <- <-]. apply find_ci_split in Hf as [_ Hf].
  destruct from; [discriminate | reflexivity].
Qed.

Lemma nonempty_app_l (a b : jsstring) : nonempty a = true -> nonempty (a ++ b) = true.
Proof. destruct a; [discriminate | reflexivity]. Qed.

Lemma extractSnippet_empty text : extractSnippet text = [] <-> text = [].
Proof.
  split; [|intros ->; vm_compute; reflexivity].
  unfold extractSnippet, substring0.
  destruct (exec headRe text) as [m|], (exec bodyRe text) as [m'|]; cbn [app];
    match goal with |- context [nonempty ?x] => destruct x eqn:E end; cbn [nonempty negb];
    try discriminate; destruct text; try reflexivity; discriminate.
Qed.

(** C5 (as amended): on probe success the snippet is a string, never
    absent: the head block with its tags, when found, followed by at most
    the first 1500 characters of the body's inner text, when found; when
    these two parts together are empty, and so when neither region is
    found, it is the first 2000 characters of the raw body; for an empty
    body it is the empty string. *)
Theorem snippet_of_success raw net r text :
  ProbeSucceeds net r text ->
  exists m, scanWebsite raw net = Normal m
    /\ htmlSnippet m = Some (snippet_of_regions text)
    /\ (forall block inner, head_block text = Some (block, inner) ->
          htmlSnippet m =
            Some (block ++ match body_block text with
                           | Some (_, inner') => take 1500 inner'
                           | None => []
                           end))
    /\ (forall block' inner', head_block text = None ->
          body_block text = Some (block', inner') -> inner' <> [] ->
          htmlSnippet m = Some (take 1500 inner'))
    /\ (forall block', head_block text = None -> body_block text = Some (block', []) ->
          htmlSnippet m = Some (take 2000 text))
    /\ (head_block text = None -> body_block text = None ->
          htmlSnippet m = Some (take 2000 text))
    /\ (text = [] -> htmlSnippet m = Some []).
Proof.
  intros Hok. eexists. split; [apply scanWebsite_success; exact Hok|].
  cbn [htmlSnippet]. rewrite extractSnippet_regions. unfold snippet_of_regions.
  split; [reflexivity|]. split; [|split; [|split; [|split]]].
  - intros block inner H. rewrite H. apply head_block_nonempty in H.
    rewrite (nonempty_app_l _ _ H). reflexivity.
  - intros block' inner' -> -> Hi. cbn [app].
    destruct inner'; [congruence | reflexivity].
  - intros block' -> ->. reflexivity.
  - intros -> ->. reflexivity.
  - intros ->. reflexivity.
Qed.

Lemma snippet_of_success_witness :
  ProbeSucceeds page_probe page_response page_text
  /\ exists m, scanWebsite (str " example.com ") page_probe = Normal m
       /\ htmlSnippet m = Some (str "<HEAD><title>t</title></head>hello").
Proof.
  assert (ProbeSucceeds page_probe page_response page_text) as H by (split; reflexivity).
  split; [exact H|].
  destruct (snippet_of_success (str " example.com ") _ _ _ H) as (m & Hm & Hs & _).
  exists m. split; [exact Hm|]. rewrite Hs. vm_compute. reflexivity.
Defined.

(** C5, the counterexample: for an empty body the snippet is the empty
    string, not an absent value. *)
Lemma empty_body_snippet_not_absent :
  ProbeSucceeds empty_response empty_body_response []
  /\ exists m, scanWebsite (str "example.com") empty_response = Normal m
       /\ htmlSnippet m = Some []
       /\ htmlSnippet m <> None.
Proof.
  split; [split; reflexivity|]. eexists. split; [reflexivity|].
  split; [vm_compute; reflexivity | discriminate].
Qed.

(** A body region that is found but empty, with no head region, also
    leads to the raw prefix. *)
Example extractSnippet_empty_body_region :
  body_block (str "<body></body>") = Some (str "<body></body>", [])
  /\ extractSnippet (str "<body></body>") = str "<body></body>".
Proof. split; vm_compute; reflexivity. Qed.

(** ** The probe and the scoring engine together *)

Lemma simulateAnalysis_empty_snippet m L :
  simulateAnalysis (set_htmlSnippet (Some []) m) L
  = simulateAnalysis (set_htmlSnippet None m) L.
Proof. reflexivity. Qed.

Lemma healthScore_empty_snippet m L c s :
  healthScore (simulateAnalysis (set_htmlSnippet (Some []) m) L)
  = healthScore (simulateAnalysis (set_htmlSnippet (Some (c :: s)) m) L) - 10.
Proof.
  rewrite !healthScore_exact. unfold applied_deductions.
  cbn [set_htmlSnippet url statusCode htmlSnippet truthy_string nonempty]. lia.
Qed.

(** C9 (as amended): on a probe whose [fetch] resolves and whose body
    text is read, [htmlSnippet] is a string, never null; it is the empty
    string exactly for an empty body; and the scoring engine gives for
    the empty string the report it gives for an absent snippet, 10 points
    below the score of any non-empty snippet. *)
Theorem success_snippet_is_string raw net r text :
  ProbeSucceeds net r text ->
  exists m s, scanWebsite raw net = Normal m
    /\ htmlSnippet m = Some s
    /\ (s = [] <-> text = [])
    /\ (text = [] ->
        forall L,
          simulateAnalysis m L = simulateAnalysis (set_htmlSnippet None m) L
          /\ applied_deductions m L
             = applied_deductions (set_htmlSnippet (Some (str "<html>")) m) L + 10
          /\ forall c s',
               healthScore (simulateAnalysis m L)
               = healthScore (simulateAnalysis (set_htmlSnippet (Some (c :: s')) m) L) - 10).
Proof.
  intros Hok. eexists. exists (extractSnippet text).
  split; [apply scanWebsite_success; exact Hok|].
  split; [reflexivity|]. split; [apply extractSnippet_empty|].
  intros -> L.
  change (extractSnippet []) with (@nil N).
  match goal with |- simulateAnalysis ?m _ = _ /\ _ =>
    change m with (set_htmlSnippet (Some []) m) end.
  split; [apply simulateAnalysis_empty_snippet|]. split.
  - unfold applied_deductions.
    cbn [set_htmlSnippet url statusCode htmlSnippet truthy_string nonempty].
    change (nonempty (str "<html>")) with true. cbn [nonempty]. lia.
  - intros c s'. apply healthScore_empty_snippet.
Qed.

Lemma success_snippet_is_string_witness :
  ProbeSucceeds empty_response empty_body_response []
  /\ exists m, scanWebsite (str "example.com") empty_response = Normal m
       /\ htmlSnippet m = Some []
       /\ healthScore (simulateAnalysis m []) = 90
       /\ simulateAnalysis m [] = simulateAnalysis (set_htmlSnippet None m) [].
Proof.
  assert (ProbeSucceeds empty_response empty_body_response []) as H by (split; reflexivity).
  split; [exact H|].
  destruct (success_snippet_is_string (str "example.com") _ _ _ H)
    as (m & s & Hm & Hs & Hiff & Heng).
  exists m. rewrite Hs, (proj2 Hiff eq_refl).
  destruct (Heng eq_refl []) as (He & _ & _).
  repeat split; [exact Hm | | exact He].
  injection Hm as <-. vm_compute. reflexivity.
Defined.

(** C9, the counterexample: [fetch] resolves without throwing and the
    read of the body is cut by the timer; the outcome is the failure
    record, with [htmlSnippet] null and no status code. *)
Lemma fetch_resolved_snippet_null :
  fetch_event body_cut = Responds body_cut_response
  /\ fetch (fetch_event body_cut) = Normal body_cut_response
  /\ exists m, scanWebsite (str "example.com") body_cut = Normal m
       /\ htmlSnippet m = None
       /\ statusCode m = None
       /\ fetchError m = Some (str "Connection Timeout").
Proof.
  split; [reflexivity|]. split; [reflexivity|].
  eexists. split; [reflexivity|]. repeat split.
Qed.

(** ** Sample runs *)

(** The elapsed time is the rounded difference of the two readings, and
    is rounded again to an integer: the readings 2^-53 and 41.5 give 42,
    as their difference is the double 41.5, where 41.5 - 2^-53 itself is
    nearer to 41. *)
Example responseTimeMs_of_doubles :
  double_value (startTime half_way) == 1 # 9007199254740992
  /\ double_value (endTime half_way) == 83 # 2
  /\ double_sub (endTime half_way) (startTime half_way) = endTime half_way
  /\ (exists m, scanWebsite (str "example.com") half_way = Normal m
               /\ responseTimeMs m = Some 42)
  /\ Qfloor (double_value (endTime half_way) - double_value (startTime half_way) + (1 # 2))
     = 41.
Proof.
  split; [vm_compute; reflexivity|]. split; [vm_compute; reflexivity|].
  split; [vm_compute; reflexivity|].
  split; [eexists; split; [reflexivity|]; vm_compute; reflexivity|].
  vm_compute; reflexivity.
Qed.

Example exec_head_sample :
  exec headRe (str "x<HEAD><title>t</title></head>y</head>")
  = Some (str "<HEAD><title>t</title></head>", str "<title>t</title>").
Proof. vm_compute. reflexivity. Qed.

Example exec_body_sample :
  exec bodyRe (str "<p><Body class='x'>hi</BODY></body>")
  = Some (str "<Body class='x'>hi</BODY>", str "hi").
Proof. vm_compute. reflexivity. Qed.

Example normalizeUrl_samples :
  normalizeUrl (str "  example.com ") = str "https://example.com"
  /\ normalizeUrl (str "HTTP://example.com") = str "HTTP://example.com"
  /\ normalizeUrl (str "https://example.com") = str "https://example.com"
  /\ normalizeUrl (str "ftp://example.com") = str "https://ftp://example.com"
  /\ normalizeUrl (str "http:/example.com") = str "https://http:/example.com".
Proof. repeat split; vm_compute; reflexivity. Qed.

Example scanWebsite_timeout :
  scanWebsite (str "slow.example") timed_out
  = Normal {| url := str "https://slow.example"; statusCode := None; responseTimeMs := None;
              headers := ∅; htmlSnippet := None;
              fetchError := Some (str "Connection Timeout") |}.
Proof. vm_compute. reflexivity. Qed.

(** A probe is successful in the sense of the data model, [fetchError]
    absent, exactly when [fetch] resolves and the body text is read. *)
Lemma fetchError_absent_iff raw net m :
  scanWebsite raw net = Normal m ->
  fetchError m = None <-> exists r t, ProbeSucceeds net r t.
Proof.
  destruct (probe_outcomes net) as [(r & t & Hok)|[e He]].
  - rewrite (scanWebsite_success raw _ _ _ Hok). intros [= <-]. cbn. split; eauto.
  - rewrite (scanWebsite_failure raw _ _ He). intros [= <-]. cbn.
    split; [discriminate|]. intros (r & t & H & Hb).
    destruct He as [e' H'|msg H'|r' e' H' Hb'|r' msg H' Hb']; congruence.
Qed.

(** * Further properties *)

(** ** The URL normalizer, beyond its definition *)

Lemma trimStart_fixed s :
  (forall c, head s = Some c -> isWhiteSpace c = false) -> trimStart s = s.
Proof.
  destruct s as [|c s]; [reflexivity|]. intros H. cbn [trimStart].
  rewrite (H c eq_refl). reflexivity.
Qed.

Lemma trim_fixed s :
  (forall c, head s = Some c -> isWhiteSpace c = false) ->
  (forall c, last s = Some c -> isWhiteSpace c = false) ->
  trim s = s.
Proof.
  intros Hh Hl. unfold trim, trimEnd. rewrite (trimStart_fixed s Hh).
  rewrite trimStart_fixed; [apply reverse_involutive|].
  intros c. rewrite head_reverse. apply Hl.
Qed.

Lemma trim_idempotent s : trim (trim s) = trim s.
Proof. destruct (trim_split s) as (? & ? & _ & _ & _ & Hh & Hl). apply trim_fixed; assumption. Qed.

Lemma trimStart_blank s : blank s -> trimStart s = [].
Proof.
  induction 1 as [|c s Hc _ IH]; [reflexivity|]. cbn [trimStart]. rewrite Hc. exact IH.
Qed.

Lemma trim_blank s : blank s -> trim s = [].
Proof. intros H. unfold trim. rewrite (trimStart_blank s H). reflexivity. Qed.

Lemma startsWith_ci_refl p rest : startsWith_ci p (p ++ rest) = true.
Proof.
  induction p as [|a p IH]; [reflexivity|]. cbn [app startsWith_ci].
  rewrite N.eqb_refl. exact IH.
Qed.

Lemma startsWith_refl p rest : startsWith p (p ++ rest) = true.
Proof.
  induction p as [|a p IH]; [reflexivity|]. cbn [app startsWith].
  rewrite N.eqb_refl. exact IH.
Qed.

Lemma normalizeUrl_cases raw :
  (test protocolRe (trim raw) = true /\ normalizeUrl raw = trim raw)
  \/ (test protocolRe (trim raw) = false /\ normalizeUrl raw = str "https://" ++ trim raw).
Proof.
  unfold normalizeUrl. destruct (test protocolRe (trim raw)); [left | right]; split; reflexivity.
Qed.

Lemma trim_normalizeUrl raw : trim (normalizeUrl raw) = normalizeUrl raw.
Proof.
  destruct (normalizeUrl_cases raw) as [[_ ->]|[_ ->]]; [apply trim_idempotent|].
  destruct (trim_split raw) as (? & ? & _ & _ & _ & _ & Hl).
  apply trim_fixed.
  - intros c Hc.
    change (str "https://" ++ trim raw) with (104%N :: (str "ttps://" ++ trim raw)) in Hc.
    injection Hc as <-. reflexivity.
  - intros c. destruct (trim raw) as [|d t] eqn:E.
    + intros Hc. vm_compute in Hc. injection Hc as <-. reflexivity.
    + rewrite last_app_cons. apply Hl.
Qed.

Lemma test_protocolRe_normalizeUrl raw : test protocolRe (normalizeUrl raw) = true.
Proof.
  destruct (normalizeUrl_cases raw) as [[H ->]|[_ ->]]; [exact H|].
  rewrite test_protocolRe, startsWith_ci_refl. apply orb_true_r.
Qed.

(** X1: whatever is typed, the normalized URL begins with [http://] or
    [https://], letter case ignored, and has no white space at either end;
    normalizing it again changes nothing. *)
Theorem normalizeUrl_idempotent raw :
  (startsWith_ci (str "http://") (normalizeUrl raw)
   || startsWith_ci (str "https://") (normalizeUrl raw)) = true
  /\ trim (normalizeUrl raw) = normalizeUrl raw
  /\ normalizeUrl (normalizeUrl raw) = normalizeUrl raw.
Proof.
  split; [rewrite <- test_protocolRe; apply test_protocolRe_normalizeUrl|].
  split; [apply trim_normalizeUrl|].
  unfold normalizeUrl at 1. rewrite trim_normalizeUrl, test_protocolRe_normalizeUrl.
  reflexivity.
Qed.

(** X2: an input of white space only, the empty input included, is
    normalized to the bare scheme [https://]. *)
Theorem normalizeUrl_blank raw : blank raw -> normalizeUrl raw = str "https://".
Proof. intros H. unfold normalizeUrl. rewrite (trim_blank raw H). reflexivity. Qed.

Lemma normalizeUrl_blank_witness :
  blank (str "   ") /\ normalizeUrl (str "   ") = str "https://".
Proof.
  assert (blank (str "   ")) as H by (repeat constructor).
  split; [exact H | exact (normalizeUrl_blank _ H)].
Defined.

Lemma scanWebsite_url_typed raw net m :
  scanWebsite raw net = Normal m ->
  (startsWith_ci (str "http://") (trim raw) || startsWith_ci (str "https://") (trim raw)) = true ->
  url m = trim raw.
Proof.
  intros Hm H. rewrite (scanWebsite_url _ _ _ Hm). rewrite <- test_protocolRe in H.
  unfold normalizeUrl. rewrite H. reflexivity.
Qed.

Lemma scanWebsite_url_completed raw net m :
  scanWebsite raw net = Normal m ->
  (startsWith_ci (str "http://") (trim raw) || startsWith_ci (str "https://") (trim raw)) = false ->
  url m = str "https://" ++ trim raw.
Proof.
  intros Hm H. rewrite (scanWebsite_url _ _ _ Hm). rewrite <- test_protocolRe in H.
  unfold normalizeUrl. rewrite H. reflexivity.
Qed.

(** X3: the normalizer accepts a scheme in any letter case and keeps the
    URL as typed, but the scoring engine looks for lower-case [https]: a
    URL typed with a scheme that does not begin with lower-case [https],
    such as [HTTPS://host], is reported as insecure and loses 20
    points. *)
Theorem typed_scheme_case_matters raw net m L :
  scanWebsite raw net = Normal m ->
  (startsWith_ci (str "http://") (trim raw) || startsWith_ci (str "https://") (trim raw)) = true ->
  startsWith (str "https") (trim raw) = false ->
  url m = trim raw
  /\ details (seo (simulateAnalysis m L)) !! 2%nat = Some (str "Connection is insecure (HTTP)")
  /\ head (recommendations (simulateAnalysis m L))
     = Some (str "Switch to HTTPS to protect user passwords and improve Google ranking.")
  /\ healthScore (simulateAnalysis m L) <= 80.
Proof.
  intros Hm Hci Hcs. pose proof (scanWebsite_url_typed _ _ _ Hm Hci) as Hu.
  split; [exact Hu|].
  assert (startsWith (str "https") (url m) = false) as Hs by (rewrite Hu; exact Hcs).
  split; [|split].
  - unfold simulateAnalysis. cbn [seo details]. rewrite Hs. reflexivity.
  - unfold simulateAnalysis. cbn [recommendations]. rewrite Hs. reflexivity.
  - rewrite healthScore_exact. unfold applied_deductions. rewrite Hs. cbv iota.
    destruct (statusCode m) as [c|]; [destruct ((c =? 0) || (400 <=? c))|];
      destruct (nonempty L), (truthy_string (htmlSnippet m)); lia.
Qed.

Lemma typed_scheme_case_matters_witness :
  scanWebsite (str "HTTPS://example.com") page_probe
  = Normal {| url := str "HTTPS://example.com"; statusCode := Some 200;
              responseTimeMs := Some 42;
              headers := collectHeaders (response_headers page_response);
              htmlSnippet := Some (extractSnippet page_text); fetchError := None |}
  /\ healthScore (simulateAnalysis
       {| url := str "HTTPS://example.com"; statusCode := Some 200;
          responseTimeMs := Some 42;
          headers := collectHeaders (response_headers page_response);
          htmlSnippet := Some (extractSnippet page_text); fetchError := None |} []) <= 80.
Proof.
  assert (scanWebsite (str "HTTPS://example.com") page_probe
          = Normal {| url := str "HTTPS://example.com"; statusCode := Some 200;
                      responseTimeMs := Some 42;
                      headers := collectHeaders (response_headers page_response);
                      htmlSnippet := Some (extractSnippet page_text); fetchError := None |})
    as Hm by reflexivity.
  split; [exact Hm|].
  exact (proj2 (proj2 (proj2
    (typed_scheme_case_matters _ _ _ [] Hm eq_refl eq_refl)))).
Defined.

(** X4: an input typed without an [http://] or [https://] scheme gets
    [https://] in front, so the scoring engine reports it as secure and
    takes no protocol deduction, whatever the input was. *)
Theorem untyped_scheme_scored_secure raw net m L :
  scanWebsite raw net = Normal m ->
  (startsWith_ci (str "http://") (trim raw) || startsWith_ci (str "https://") (trim raw)) = false ->
  url m = str "https://" ++ trim raw
  /\ details (seo (simulateAnalysis m L)) !! 2%nat = Some (str "Connection is secure (HTTPS)")
  /\ head (recommendations (simulateAnalysis m L))
     = Some (str "Double-check that your SSL security certificate renews automatically.")
  /\ applied_deductions m L
     = match statusCode m with
       | Some c => if (c =? 0) || (400 <=? c) then 40 else 0
       | None => 15
       end
       + (if nonempty L then 15 else 0)
       + (if truthy_string (htmlSnippet m) then 0 else 10).
Proof.
  intros Hm Hci. pose proof (scanWebsite_url_completed _ _ _ Hm Hci) as Hu.
  split; [exact Hu|].
  assert (startsWith (str "https") (url m) = true) as Hs.
  { rewrite Hu. change (str "https://") with (str "https" ++ str "://").
    rewrite <- app_assoc. apply startsWith_refl. }
  split; [|split].
  - unfold simulateAnalysis. cbn [seo details]. rewrite Hs. reflexivity.
  - unfold simulateAnalysis. cbn [recommendations]. rewrite Hs. reflexivity.
  - unfold applied_deductions. rewrite Hs. cbv iota. lia.
Qed.

Lemma untyped_scheme_scored_secure_witness :
  scanWebsite (str "ftp://example.com") page_probe
  = Normal {| url := str "https://ftp://example.com"; statusCode := Some 200;
              responseTimeMs := Some 42;
              headers := collectHeaders (response_headers page_response);
              htmlSnippet := Some (extractSnippet page_text); fetchError := None |}
  /\ details (seo (simulateAnalysis
       {| url := str "https://ftp://example.com"; statusCode := Some 200;
          responseTimeMs := Some 42;
          headers := collectHeaders (response_headers page_response);
          htmlSnippet := Some (extractSnippet page_text); fetchError := None |} [])) !! 2%nat
     = Some (str "Connection is secure (HTTPS)").
Proof.
  assert (scanWebsite (str "ftp://example.com") page_probe
          = Normal {| url := str "https://ftp://example.com"; statusCode := Some 200;
                      responseTimeMs := Some 42;
                      headers := collectHeaders (response_headers page_response);
                      htmlSnippet := Some (extractSnippet page_text); fetchError := None |})
    as Hm by reflexivity.
  split; [exact Hm|].
  exact (proj1 (proj2 (untyped_scheme_scored_secure _ _ _ [] Hm eq_refl))).
Defined.

(** ** The header map *)

Lemma collectHeaders_snoc hs k v :
  collectHeaders (hs ++ [(k, v)])
  = if bool_decide (k = str "__proto__") then collectHeaders hs
    else <[k := v]> (collectHeaders hs).
Proof. unfold collectHeaders. rewrite foldl_app. reflexivity. Qed.

Lemma collectHeaders_stored hs k v :
  collectHeaders hs !! k = Some v -> (k, v) ∈ hs /\ k <> str "__proto__".
Proof.
  induction hs as [|[k' v'] hs IH] using rev_ind.
  - unfold collectHeaders; cbn [foldl]. rewrite lookup_empty. discriminate.
  - rewrite collectHeaders_snoc. case_bool_decide as Hp.
    + intros H. destruct (IH H) as [Hin Hne]. split; [|exact Hne].
      apply elem_of_app. left. exact Hin.
    + destruct (decide (k = k')) as [->|Hkk].
      * rewrite lookup_insert_eq. intros [= <-]. split; [|exact Hp].
        apply elem_of_app. right. apply list_elem_of_singleton. reflexivity.
      * rewrite lookup_insert_ne by congruence. intros H.
        destruct (IH H) as [Hin Hne]. split; [|exact Hne].
        apply elem_of_app. left. exact Hin.
Qed.

Lemma collectHeaders_listed hs k v :
  NoDup hs.*1 -> (k, v) ∈ hs -> k <> str "__proto__" ->
  collectHeaders hs !! k = Some v.
Proof.
  induction hs as [|[k' v'] hs IH] using rev_ind; intros Hnd Hin Hne.
  - apply elem_of_nil in Hin. destruct Hin.
  - rewrite fmap_app in Hnd. apply NoDup_app in Hnd as (Hnd & Hfresh & _).
    assert (k' ∉ hs.*1) as Hk'.
    { intros Hk. apply (Hfresh k' Hk). cbn. apply list_elem_of_singleton. reflexivity. }
    rewrite collectHeaders_snoc.
    apply elem_of_app in Hin as [Hin|Hin].
    + assert (k <> k') as Hkk.
      { intros ->. apply Hk'. apply list_elem_of_fmap. exists (k', v). split; [reflexivity|exact Hin]. }
      case_bool_decide; [|rewrite lookup_insert_ne by congruence]; apply IH; assumption.
    + apply list_elem_of_singleton in Hin. injection Hin as -> ->.
      rewrite bool_decide_eq_false_2 by exact Hne. apply lookup_insert_eq.
Qed.

Lemma collectHeaders_nothing hs :
  (forall kv, kv ∈ hs -> kv.1 = str "__proto__") -> collectHeaders hs = ∅.
Proof.
  induction hs as [|[k' v'] hs IH] using rev_ind; intros H; [reflexivity|].
  rewrite collectHeaders_snoc.
  rewrite bool_decide_eq_true_2.
  - apply IH. intros kv Hkv. apply H. apply elem_of_app. left. exact Hkv.
  - apply (H (k', v')). apply elem_of_app. right. apply list_elem_of_singleton. reflexivity.
Qed.

(** X5: of a response whose header names are pairwise different, the
    headers map holds every listed pair but one: nothing is stored under
    the name [__proto__].  So a name is absent from the map exactly when
    the response does not list it or when it is [__proto__], and the map
    is empty exactly when the response lists no other name. *)
Theorem collectHeaders_lookup hs :
  NoDup hs.*1 ->
  (forall k v, collectHeaders hs !! k = Some v <-> (k, v) ∈ hs /\ k <> str "__proto__")
  /\ (forall k, collectHeaders hs !! k = None <-> k ∉ hs.*1 \/ k = str "__proto__")
  /\ (collectHeaders hs = ∅ <-> forall kv, kv ∈ hs -> kv.1 = str "__proto__").
Proof.
  intros Hnd. split; [|split].
  - intros k v. split; [apply collectHeaders_stored|].
    intros [Hin Hne]. apply collectHeaders_listed; assumption.
  - intros k. split.
    + intros Hnone. destruct (decide (k = str "__proto__")) as [Hp|Hp]; [right; exact Hp|].
      left. intros Hin. apply list_elem_of_fmap in Hin as ([k' v] & Hk & Hin).
      cbn in Hk. subst k'.
      rewrite (collectHeaders_listed hs k v Hnd Hin Hp) in Hnone. discriminate.
    + intros Hk. destruct (collectHeaders hs !! k) as [v|] eqn:E; [|reflexivity].
      apply collectHeaders_stored in E as [Hin Hne]. destruct Hk as [Hk|Hk].
      * destruct Hk. apply list_elem_of_fmap. exists (k, v). split; [reflexivity|exact Hin].
      * contradiction.
  - split; [|apply collectHeaders_nothing].
    intros Hempty [k v] Hin. cbn.
    destruct (decide (k = str "__proto__")) as [Hp|Hp]; [exact Hp|].
    pose proof (collectHeaders_listed hs k v Hnd Hin Hp) as H.
    rewrite Hempty, lookup_empty in H. discriminate.
Qed.

Lemma collectHeaders_lookup_witness :
  NoDup listed_headers.*1
  /\ collectHeaders listed_headers !! str "content-type" = Some (str "text/html")
  /\ collectHeaders listed_headers !! str "__proto__" = None.
Proof.
  assert (NoDup listed_headers.*1) as Hnd
    by (apply (bool_decide_unpack _); vm_compute; exact I).
  split; [exact Hnd|]. split.
  - apply (proj1 (collectHeaders_lookup listed_headers Hnd)). split.
    + apply (bool_decide_unpack _); vm_compute; exact I.
    + intros H. apply (f_equal length) in H. vm_compute in H. discriminate.
  - apply (proj1 (proj2 (collectHeaders_lookup listed_headers Hnd))). right. reflexivity.
Defined.

(** ** The size of the snippet *)

(** X6: without a head region the snippet has at most 2000 code units;
    with one it is the matched head block followed by at most 1500 more.
    The head block is not cut, so the snippet is not bounded by a
    constant, and it can be longer than the page it was taken from. *)
Theorem extractSnippet_length text :
  (exec headRe text = None -> length (extractSnippet text) <= 2000)%nat
  /\ (forall m, exec headRe text = Some m ->
        exists rest, extractSnippet text = m.1 ++ rest /\ length rest <= 1500)%nat
  /\ (exists page, length page < length (extractSnippet page))%nat.
Proof.
  split; [|split].
  - intros H. unfold extractSnippet, substring0. rewrite H.
    destruct (exec bodyRe text) as [m'|]; cbn [app].
    + destruct (nonempty (take 1500 m'.2)); cbn [negb]; rewrite length_take; lia.
    + cbn [nonempty negb]. rewrite length_take. lia.
  - intros m H. unfold extractSnippet, substring0. rewrite H. cbn [app].
    assert (nonempty m.1 = true) as Hne.
    { rewrite exec_headRe in H. destruct m as [block inner].
      apply (head_block_nonempty _ _ _ H). }
    destruct (exec bodyRe text) as [m'|].
    + rewrite (nonempty_app_l _ _ Hne). cbn [negb]. eexists. split; [reflexivity|].
      rewrite length_take. lia.
    + rewrite Hne. cbn [negb]. exists []. split; [rewrite app_nil_r; reflexivity|].
      cbn. lia.
  - exists (str "<head><body>x</body></head>"). vm_compute. lia.
Qed.

(** ** A failed probe, scored *)

Lemma fetchError_text_nonempty e :
  nonempty (if bool_decide (name e = str "AbortError") then str "Connection Timeout"
            else if nonempty (message e) then message e
            else str "Network/CORS Error") = true.
Proof.
  destruct (bool_decide _); [reflexivity|].
  destruct (nonempty (message e)) eqn:E; [exact E | reflexivity].
Qed.

(** X7: when the probe fails, the report of the scoring engine is fixed
    up to the scheme and the logs: the score is 75, less 20 when the
    normalized URL does not begin with [https], less 15 when logs were
    pasted; the privacy level is "Needs attention", the SEO summary is the
    blocked-scan text and the second recommendation is the one about
    bots. *)
Theorem failed_probe_report raw net e m L :
  ProbeFails net e ->
  scanWebsite raw net = Normal m ->
  healthScore (simulateAnalysis m L)
  = 75 - (if startsWith (str "https") (normalizeUrl raw) then 0 else 20)
       - (if nonempty L then 15 else 0)
  /\ healthScore (simulateAnalysis m L) <= 75
  /\ level (privacy (simulateAnalysis m L)) = NeedsAttention
  /\ summary (seo (simulateAnalysis m L))
     = str "We couldn't read the page details because the site is blocking automated scans. This usually means security is active."
  /\ recommendations (simulateAnalysis m L) !! 1%nat
     = Some (str "Your site is secure against bots, which is good! Use a server-tool for deeper analysis.").
Proof.
  intros He Hm. rewrite (scanWebsite_failure raw _ _ He) in Hm. injection Hm as <-.
  match goal with |- context [simulateAnalysis ?r L] => set (m := r) end.
  assert (truthy_string (htmlSnippet m) = false) as Hh by reflexivity.
  assert (truthy_string (fetchError m) = true) as Hf by apply fetchError_text_nonempty.
  assert (statusCode m = None) as Hs by reflexivity.
  assert (url m = normalizeUrl raw) as Hu by reflexivity.
  clearbody m. unfold simulateAnalysis.
  cbn [healthScore privacy level seo summary recommendations].
  rewrite Hh, Hf, Hs, Hu. cbn [truthy_number number_ge negb orb lookup list_lookup].
  destruct (startsWith (str "https") (normalizeUrl raw)), (nonempty L); cbn [negb];
    repeat split; vm_compute; congruence.
Qed.

Lemma failed_probe_report_witness :
  ProbeFails timed_out (AbortError (str "The user aborted a request."))
  /\ healthScore (simulateAnalysis
       {| url := str "https://slow.example"; statusCode := None; responseTimeMs := None;
          headers := ∅; htmlSnippet := None;
          fetchError := Some (str "Connection Timeout") |} (str "TypeError: x")) = 60.
Proof.
  assert (ProbeFails timed_out (AbortError (str "The user aborted a request."))) as He
    by (apply fetch_aborted; reflexivity).
  split; [exact He|].
  exact (proj1 (failed_probe_report (str "slow.example") _ _ _ (str "TypeError: x") He eq_refl)).
Defined.

(** ** What the scoring engine reads *)

(** X8: the report depends on the logs only through their being empty
    or not, and not at all on the headers and the response time: two
    inputs that agree on the URL, the status code, the snippet and the
    fetch error, and whose logs are both empty or both non-empty, get the
    same report. *)
Theorem simulateAnalysis_reads m m' L L' :
  url m = url m' -> statusCode m = statusCode m' -> htmlSnippet m = htmlSnippet m' ->
  fetchError m = fetchError m' -> nonempty L = nonempty L' ->
  simulateAnalysis m L = simulateAnalysis m' L'.
Proof.
  intros Hu Hs Hh Hf HL. unfold simulateAnalysis. rewrite Hu, Hs, Hh, Hf, HL. reflexivity.
Qed.

Lemma simulateAnalysis_reads_witness :
  simulateAnalysis (sample "https://ok.example" (Some 200) (Some (str "<html>")) None)
    (str "all good, no errors")
  = simulateAnalysis
      {| url := str "https://ok.example"; statusCode := Some 200; responseTimeMs := Some 9000;
         headers := collectHeaders twice_listed; htmlSnippet := Some (str "<html>");
         fetchError := None |}
      (str "Uncaught TypeError: x is not a function").
Proof.
  exact (simulateAnalysis_reads _ _ _ _ eq_refl eq_refl eq_refl eq_refl eq_refl).
Defined.

(** ** The gauge, the verdict and the privacy badge *)

Lemma js_ge_integer z k : js_ge (integer z) k = (k <=? z).
Proof. unfold js_ge, integer, Qle_bool. cbn. rewrite !Z.mul_1_r. reflexivity. Qed.

Lemma js_lt_integer z k : js_lt (integer z) k = (z <? k).
Proof.
  unfold js_lt, integer, Qle_bool. cbn. rewrite !Z.mul_1_r.
  destruct (Z.leb_spec k z), (Z.ltb_spec z k); try lia; reflexivity.
Qed.

Lemma js_ge_Finite q k : js_ge (Finite q) k = true <-> (inject_Z k <= q)%Q.
Proof. apply Qle_bool_iff. Qed.

Lemma js_lt_Finite q k : js_lt (Finite q) k = true <-> (q < inject_Z k)%Q.
Proof.
  unfold js_lt. destruct (Qle_bool (inject_Z k) q) eqn:E; cbn [negb].
  - apply Qle_bool_iff in E. split; [discriminate|].
    intros H. destruct (Qlt_not_le _ _ H E).
  - split; [intros _|reflexivity]. apply Qnot_le_lt. intros H.
    apply Qle_bool_iff in H. congruence.
Qed.

Lemma gauge_of_number (q : Q) :
  ((80 <= q)%Q <->
     RadialScore_fill (Finite q) = str "#22c55e"
     /\ healthVerdict (Finite q) = str "Excellent condition")
  /\ ((50 <= q < 80)%Q <->
        RadialScore_fill (Finite q) = str "#f59e0b"
        /\ healthVerdict (Finite q) = str "Needs improvements")
  /\ ((q < 50)%Q <->
        RadialScore_fill (Finite q) = str "#ef4444"
        /\ healthVerdict (Finite q) = str "Critical issues found").
Proof.
  pose proof (js_ge_Finite q 80) as G80. pose proof (js_ge_Finite q 50) as G50.
  pose proof (js_lt_Finite q 80) as L80. pose proof (js_lt_Finite q 50) as L50.
  change (inject_Z 80) with 80%Q in *. change (inject_Z 50) with 50%Q in *.
  unfold RadialScore_fill, healthVerdict.
  destruct (js_ge (Finite q) 80), (js_ge (Finite q) 50), (js_lt (Finite q) 80),
    (js_lt (Finite q) 50);
    try (pose proof (proj1 G80 eq_refl)); try (pose proof (proj1 G50 eq_refl));
    try (pose proof (proj1 L80 eq_refl)); try (pose proof (proj1 L50 eq_refl));
    try lra;
    try (assert (~ (80 <= q)%Q) by (intros Hx; apply G80 in Hx; discriminate));
    try (assert (~ (50 <= q)%Q) by (intros Hx; apply G50 in Hx; discriminate));
    try (assert (~ (q < 80)%Q) by (intros Hx; apply L80 in Hx; discriminate));
    try (assert (~ (q < 50)%Q) by (intros Hx; apply L50 in Hx; discriminate));
    try lra;
    (split; [|split]);
    (split; [intros; try lra; split; reflexivity | intros [Hf Hv]]);
    try lra; vm_compute in Hf; discriminate.
Qed.

(** X9: for every number the colour of the gauge and the sentence under
    it agree: green with "Excellent condition" from 80 up, amber with
    "Needs improvements" from 50 up to 80, red with "Critical issues
    found" below 50, for integers and fractions alike and for the two
    infinities.  They part for a score that is no number, such as the
    missing score of a report without the field: the gauge stays green
    while the sentence reads "Critical issues found". *)
Theorem gauge_matches_verdict :
  (forall q : Q,
     ((80 <= q)%Q <->
        RadialScore_fill (Finite q) = str "#22c55e"
        /\ healthVerdict (Finite q) = str "Excellent condition")
     /\ ((50 <= q < 80)%Q <->
           RadialScore_fill (Finite q) = str "#f59e0b"
           /\ healthVerdict (Finite q) = str "Needs improvements")
     /\ ((q < 50)%Q <->
           RadialScore_fill (Finite q) = str "#ef4444"
           /\ healthVerdict (Finite q) = str "Critical issues found"))
  /\ (forall score : Z,
        (80 <= score <->
           RadialScore_fill (integer score) = str "#22c55e"
           /\ healthVerdict (integer score) = str "Excellent condition")
        /\ (50 <= score < 80 <->
              RadialScore_fill (integer score) = str "#f59e0b"
              /\ healthVerdict (integer score) = str "Needs improvements")
        /\ (score < 50 <->
              RadialScore_fill (integer score) = str "#ef4444"
              /\ healthVerdict (integer score) = str "Critical issues found"))
  /\ (RadialScore_fill PosInfinity = str "#22c55e"
      /\ healthVerdict PosInfinity = str "Excellent condition")
  /\ (RadialScore_fill NegInfinity = str "#ef4444"
      /\ healthVerdict NegInfinity = str "Critical issues found")
  /\ (RadialScore_fill NaN = str "#22c55e"
      /\ healthVerdict NaN = str "Critical issues found").
Proof.
  split; [exact gauge_of_number|]. split; [|repeat split].
  intros score. unfold RadialScore_fill, healthVerdict.
  rewrite !js_ge_integer, !js_lt_integer.
  destruct (Z.ltb_spec score 50), (Z.ltb_spec score 80), (Z.leb_spec 80 score),
    (Z.leb_spec 50 score); try lia;
    (split; [|split]); (split; [intros; try lia; split; reflexivity | intros [Hf Hv]]);
    try lia; vm_compute in Hf; discriminate.
Qed.

Lemma gauge_thresholds score :
  healthVerdict (integer score) = str "Excellent condition" <-> 80 <= score.
Proof.
  unfold healthVerdict. rewrite !js_ge_integer.
  destruct (Z.leb_spec 80 score), (Z.leb_spec 50 score); try lia;
    (split; [intros Hx; try lia; vm_compute in Hx; discriminate
            | intros; try lia; reflexivity]).
Qed.

Lemma score_80_iff m L :
  100 - applied_deductions m L = 80
  <-> startsWith (str "https") (url m) = false
      /\ (exists c, statusCode m = Some c /\ c <> 0 /\ c < 400)
      /\ L = [] /\ truthy_string (htmlSnippet m) = true.
Proof.
  unfold applied_deductions.
  destruct (startsWith (str "https") (url m)), (statusCode m) as [c|], L as [|x L],
    (truthy_string (htmlSnippet m)); cbn [nonempty];
    try (destruct (Z.eqb_spec c 0), (Z.leb_spec 400 c); cbn [orb]);
    (split; [intros Hx; try lia | intros (H1 & (c' & H2 & H3 & H4) & H5 & H6);
                                    try discriminate; try injection H2 as <-; try lia]).
  all: repeat split; try reflexivity. all: exists c; repeat split; lia.
Qed.

(** X10: in a report of the scoring engine the privacy level is "Low
    concern" exactly above 80 and never "High concern", while the verdict
    is "Excellent condition" from 80 on: the two disagree exactly at the
    score 80, which is the score of an input whose only deduction is the
    one for the scheme. *)
Theorem privacy_level_and_verdict m L :
  (level (privacy (simulateAnalysis m L)) = LowConcern
     <-> 80 < healthScore (simulateAnalysis m L))
  /\ level (privacy (simulateAnalysis m L)) <> HighConcern
  /\ (level (privacy (simulateAnalysis m L)) = LowConcern ->
        healthVerdict (integer (healthScore (simulateAnalysis m L)))
        = str "Excellent condition")
  /\ (healthVerdict (integer (healthScore (simulateAnalysis m L))) = str "Excellent condition"
      /\ level (privacy (simulateAnalysis m L)) = NeedsAttention
      <-> healthScore (simulateAnalysis m L) = 80)
  /\ (healthScore (simulateAnalysis m L) = 80
      <-> startsWith (str "https") (url m) = false
          /\ (exists c, statusCode m = Some c /\ c <> 0 /\ c < 400)
          /\ L = [] /\ truthy_string (htmlSnippet m) = true).
Proof.
  assert (level (privacy (simulateAnalysis m L))
          = if healthScore (simulateAnalysis m L) >? 80 then LowConcern else NeedsAttention)
    as Hl by reflexivity.
  rewrite Hl. pose proof (gauge_thresholds (healthScore (simulateAnalysis m L))) as Hv.
  destruct (Z.gtb_spec (healthScore (simulateAnalysis m L)) 80) as [Hgt|Hle].
  - split; [split; [intros _; lia | reflexivity]|]. split; [discriminate|].
    split; [intros _; apply Hv; lia|]. split; [split; [intros [_ [=]] | lia]|].
    rewrite healthScore_exact in *. apply score_80_iff.
  - split; [split; [discriminate | lia]|]. split; [discriminate|].
    split; [discriminate|]. split.
    + split; [intros [H _]; apply Hv in H; lia | intros H; split; [apply Hv; lia | reflexivity]].
    + rewrite healthScore_exact in *. apply score_80_iff.
Qed.

(** ** The technical overview card *)

Lemma getStatusColor_cases c :
  getStatusColor (Some c) =
    if c =? 0 then str "text-slate-400"
    else if (200 <=? c) && (c <? 300) then str "text-green-500"
    else if 400 <=? c then str "text-red-500"
    else str "text-amber-500".
Proof. unfold getStatusColor. cbn. destruct (c =? 0); reflexivity. Qed.

(** X11: the card of a failed probe shows the grey colour, "Fetch
    Failed" and "Restricted"; the card of a successful probe shows
    "Direct", and "OK" for the status 200 only: every other status of a
    successful probe, 204 and 404 alike, is captioned "Unknown". *)
Theorem overview_of_outcome raw net m :
  scanWebsite raw net = Normal m ->
  (is_Some (fetchError m) ->
     getStatusColor (statusCode m) = str "text-slate-400"
     /\ statusCaption m = str "Fetch Failed" /\ fetchMode m = str "Restricted")
  /\ (fetchError m = None ->
        fetchMode m = str "Direct"
        /\ (statusCode m = Some 200 -> statusCaption m = str "OK")
        /\ (statusCode m <> Some 200 -> statusCaption m = str "Unknown")).
Proof.
  intros Hm. destruct (probe_outcomes net) as [(r & t & Hok)|[e He]].
  - rewrite (scanWebsite_success raw _ _ _ Hok) in Hm. injection Hm as <-.
    split; [intros [? [=]]|]. intros _. unfold fetchMode, statusCaption.
    cbn [fetchError statusCode truthy_string].
    split; [reflexivity|]. split; intros H.
    + rewrite bool_decide_eq_true_2 by exact H. reflexivity.
    + rewrite bool_decide_eq_false_2 by exact H. reflexivity.
  - rewrite (scanWebsite_failure raw _ _ He) in Hm. injection Hm as <-.
    split; [|intros [=]]. intros _. unfold fetchMode, statusCaption.
    cbn [fetchError statusCode]. change (truthy_string (Some ?x)) with (nonempty x).
    rewrite fetchError_text_nonempty. repeat split.
Qed.

Lemma overview_of_outcome_witness :
  scanWebsite (str "example.com") empty_response
  = Normal {| url := str "https://example.com"; statusCode := Some 204;
              responseTimeMs := Some 42;
              headers := collectHeaders (response_headers empty_body_response);
              htmlSnippet := Some []; fetchError := None |}
  /\ statusCaption
       {| url := str "https://example.com"; statusCode := Some 204;
          responseTimeMs := Some 42;
          headers := collectHeaders (response_headers empty_body_response);
          htmlSnippet := Some []; fetchError := None |} = str "Unknown".
Proof.
  assert (scanWebsite (str "example.com") empty_response
          = Normal {| url := str "https://example.com"; statusCode := Some 204;
                      responseTimeMs := Some 42;
                      headers := collectHeaders (response_headers empty_body_response);
                      htmlSnippet := Some []; fetchError := None |}) as Hm by reflexivity.
  split; [exact Hm|].
  apply (proj2 (overview_of_outcome _ _ _ Hm)); [reflexivity | discriminate].
Defined.

Lemma getStatusColor_class code :
  ((code = None \/ code = Some 0) /\ getStatusColor code = str "text-slate-400")
  \/ (exists c, code = Some c /\ 200 <= c < 300 /\ getStatusColor code = str "text-green-500")
  \/ (exists c, code = Some c /\ 400 <= c /\ getStatusColor code = str "text-red-500")
  \/ (exists c, code = Some c /\ c <> 0 /\ (c < 200 \/ 300 <= c < 400)
                /\ getStatusColor code = str "text-amber-500").
Proof.
  destruct code as [c|]; [|left; split; [left|]; reflexivity].
  rewrite getStatusColor_cases.
  destruct (Z.eqb_spec c 0) as [->|Hc]; [left; split; [right|]; reflexivity|].
  destruct (Z.leb_spec 200 c), (Z.ltb_spec c 300); cbn [andb].
  - right; left. exists c. repeat split; lia.
  - destruct (Z.leb_spec 400 c).
    + right; right; left. exists c. repeat split; lia.
    + right; right; right. exists c. repeat split; lia || congruence.
  - destruct (Z.leb_spec 400 c); [lia|].
    right; right; right. exists c. repeat split; lia || congruence.
  - lia.
Qed.

(** X12: the status colour is red exactly for a status code of 400 or
    more, green exactly from 200 to 299, grey exactly for no code or the
    code 0; and whenever it is red the scoring engine has taken the 40
    points, so the score is at most 60. *)
Theorem getStatusColor_spec code :
  (getStatusColor code = str "text-red-500" <-> exists c, code = Some c /\ 400 <= c)
  /\ (getStatusColor code = str "text-green-500" <-> exists c, code = Some c /\ 200 <= c < 300)
  /\ (getStatusColor code = str "text-slate-400" <-> code = None \/ code = Some 0)
  /\ (forall m L, statusCode m = code -> getStatusColor code = str "text-red-500" ->
        healthScore (simulateAnalysis m L) <= 60).
Proof.
  assert (getStatusColor code = str "text-red-500" <-> exists c, code = Some c /\ 400 <= c)
    as Hred.
  { destruct (getStatusColor_class code)
      as [[Hk' Hk]|[(c & -> & Hc & Hk)|[(c & -> & Hc & Hk)|(c & -> & Hn & Hc & Hk)]]];
      rewrite Hk; split; intros Hx; try (vm_compute in Hx; discriminate);
      try reflexivity; try (exists c; split; [reflexivity | lia]);
      destruct Hx as (c' & Hx & Hc'); try destruct Hk' as [Hk'|Hk']; simplify_eq; lia. }
  split; [exact Hred|]. split; [|split].
  - destruct (getStatusColor_class code)
      as [[Hk' Hk]|[(c & -> & Hc & Hk)|[(c & -> & Hc & Hk)|(c & -> & Hn & Hc & Hk)]]];
      rewrite Hk; split; intros Hx; try (vm_compute in Hx; discriminate);
      try reflexivity; try (exists c; split; [reflexivity | lia]);
      destruct Hx as (c' & Hx & Hc'); try destruct Hk' as [Hk'|Hk']; simplify_eq; lia.
  - destruct (getStatusColor_class code)
      as [[Hk' Hk]|[(c & -> & Hc & Hk)|[(c & -> & Hc & Hk)|(c & -> & Hn & Hc & Hk)]]];
      rewrite Hk; split; intros Hx; try (vm_compute in Hx; discriminate);
      try reflexivity; try exact Hk';
      destruct Hx as [Hx|Hx]; simplify_eq; lia.
  - intros m L Hs Hc. apply Hred in Hc as (c & -> & Hc).
    rewrite healthScore_exact. unfold applied_deductions. rewrite Hs.
    assert ((400 <=? c) = true) as -> by (apply Z.leb_le; exact Hc).
    rewrite orb_true_r.
    destruct (startsWith (str "https") (url m)), (nonempty L), (truthy_string (htmlSnippet m)); lia.
Qed.

(** ** [cleanText] *)

Lemma removeChar_elem_of c s x : x ∈ removeChar c s <-> x ∈ s /\ x <> c.
Proof.
  induction s as [|y s IH]; cbn [removeChar].
  - split; [intros H; inversion H | intros [H _]; inversion H].
  - destruct (N.eqb_spec y c) as [->|Hy].
    + rewrite IH, elem_of_cons. split; [intros [? ?]; auto|].
      intros [[->|?] ?]; [congruence | auto].
    + rewrite !elem_of_cons, IH. split.
      * intros [->|[? ?]]; auto.
      * intros [[->|?] ?]; auto.
Qed.

Lemma removeChar_absent c s : c ∉ s -> removeChar c s = s.
Proof.
  induction s as [|y s IH]; intros H; [reflexivity|]. cbn [removeChar].
  apply not_elem_of_cons in H as [Hy Hs].
  destruct (N.eqb_spec y c); [congruence|]. rewrite IH by exact Hs. reflexivity.
Qed.

Lemma removeChar_length c s : (length (removeChar c s) <= length s)%nat.
Proof.
  induction s as [|y s IH]; [reflexivity|]. cbn [removeChar].
  destruct (y =? c)%N; cbn [length]; lia.
Qed.

Lemma removeStarPairs_cons2 a b s :
  removeStarPairs (a :: b :: s) =
    if ((a =? 42) && (b =? 42))%N then removeStarPairs s else a :: removeStarPairs (b :: s).
Proof. reflexivity. Qed.

(** The pass over the pairs of asterisks changes nothing once every
    asterisk is removed anyway. *)
Lemma removeChar_removeStarPairs s :
  removeChar 42 (removeStarPairs s) = removeChar 42 s.
Proof.
  assert (forall s,
            removeChar 42 (removeStarPairs s) = removeChar 42 s
            /\ forall a, removeChar 42 (removeStarPairs (a :: s)) = removeChar 42 (a :: s))
    as H; [|apply H].
  clear s. induction s as [|b s [IH1 IH2]]; [split; [reflexivity | intros a; reflexivity]|].
  split; [apply IH2|]. intros a. rewrite removeStarPairs_cons2.
  destruct (N.eqb_spec a 42) as [->|Ha], (N.eqb_spec b 42) as [->|Hb]; cbn [andb].
  - rewrite IH1. reflexivity.
  - change (removeChar 42 (42%N :: ?x)) with (removeChar 42 x). apply IH2.
  - change (removeChar 42 (a :: ?x))
      with (if (a =? 42)%N then removeChar 42 x else a :: removeChar 42 x).
    destruct (N.eqb_spec a 42); [congruence|]. f_equal. apply IH2.
  - change (removeChar 42 (a :: ?x))
      with (if (a =? 42)%N then removeChar 42 x else a :: removeChar 42 x).
    destruct (N.eqb_spec a 42); [congruence|]. f_equal. apply IH2.
Qed.

Lemma trim_elem_of s x : x ∈ trim s -> x ∈ s.
Proof.
  destruct (trim_split s) as (lead & trail & Hs & _). intros H.
  rewrite Hs, !elem_of_app. auto.
Qed.

Lemma trim_length s : (length (trim s) <= length s)%nat.
Proof.
  destruct (trim_split s) as (lead & trail & Hs & _).
  rewrite Hs at 2. rewrite !length_app. lia.
Qed.

Lemma cleanText_unfold text : cleanText text = trim (removeChar 96 (removeChar 42 text)).
Proof. unfold cleanText. rewrite removeChar_removeStarPairs. reflexivity. Qed.

(** X13: [cleanText] returns the text with every asterisk and every
    backtick removed and then trimmed (the first pass, over pairs of
    asterisks, has no effect of its own); the result holds neither
    symbol, has no white space at either end, adds no character and is
    no longer than the text. *)
Theorem cleanText_spec text :
  cleanText text = trim (removeChar 96 (removeChar 42 text))
  /\ (42%N ∉ cleanText text) /\ (96%N ∉ cleanText text)
  /\ (forall c, head (cleanText text) = Some c -> isWhiteSpace c = false)
  /\ (forall c, last (cleanText text) = Some c -> isWhiteSpace c = false)
  /\ (forall c, c ∈ cleanText text -> c ∈ text)
  /\ (length (cleanText text) <= length text)%nat.
Proof.
  split; [apply cleanText_unfold|]. rewrite cleanText_unfold.
  destruct (trim_split (removeChar 96 (removeChar 42 text))) as (? & ? & _ & _ & _ & Hh & Hl).
  split; [|split; [|split; [exact Hh|split; [exact Hl|split]]]].
  - intros H. apply trim_elem_of, removeChar_elem_of in H as [H _].
    apply removeChar_elem_of in H as [_ H]. congruence.
  - intros H. apply trim_elem_of, removeChar_elem_of in H as [_ H]. congruence.
  - intros c H. apply trim_elem_of, removeChar_elem_of in H as [H _].
    apply removeChar_elem_of in H as [H _]. exact H.
  - etransitivity; [apply trim_length|]. etransitivity; apply removeChar_length.
Qed.

Lemma cleanText_fixed text :
  42%N ∉ text -> 96%N ∉ text ->
  (forall c, head text = Some c -> isWhiteSpace c = false) ->
  (forall c, last text = Some c -> isWhiteSpace c = false) ->
  cleanText text = text.
Proof.
  intros H1 H2 Hh Hl. rewrite cleanText_unfold, (removeChar_absent 42), (removeChar_absent 96)
    by assumption. apply trim_fixed; assumption.
Qed.

(** X14: cleaning a cleaned text changes nothing, and the texts that
    [cleanText] leaves as they are, are exactly those without an
    asterisk, without a backtick and without white space at either
    end. *)
Theorem cleanText_idempotent text :
  cleanText (cleanText text) = cleanText text
  /\ (forall t,
        cleanText t = t
        <-> (42%N ∉ t) /\ (96%N ∉ t)
            /\ (forall c, head t = Some c -> isWhiteSpace c = false)
            /\ (forall c, last t = Some c -> isWhiteSpace c = false)).
Proof.
  assert (forall t, cleanText (cleanText t) = cleanText t) as Hidem.
  { intros t. rewrite (cleanText_unfold t).
    destruct (trim_split (removeChar 96 (removeChar 42 t))) as (? & ? & _ & _ & _ & Hh & Hl).
    apply cleanText_fixed; try assumption.
    - intros H. apply trim_elem_of, removeChar_elem_of in H as [H _].
      apply removeChar_elem_of in H as [_ H]. congruence.
    - intros H. apply trim_elem_of, removeChar_elem_of in H as [_ H]. congruence. }
  split; [apply Hidem|]. intros t. split.
  - intros H. rewrite <- H, cleanText_unfold.
    destruct (trim_split (removeChar 96 (removeChar 42 t))) as (? & ? & _ & _ & _ & Hh & Hl).
    split; [|split; [|split; assumption]].
    + intros Hx. apply trim_elem_of, removeChar_elem_of in Hx as [Hx _].
      apply removeChar_elem_of in Hx as [_ Hx]. congruence.
    + intros Hx. apply trim_elem_of, removeChar_elem_of in Hx as [_ Hx]. congruence.
  - intros (H1 & H2 & Hh & Hl). apply cleanText_fixed; assumption.
Qed.

Lemma displayedTexts_clean_bool m L :
  forallb (fun x => bool_decide (cleanText x = x)) (displayedTexts (simulateAnalysis m L)) = true.
Proof.
  unfold simulateAnalysis, displayedTexts;
    cbn [seo accessibility privacy jsErrors recommendations summary details privacy_findings].
  destruct (truthy_string (htmlSnippet m)), (opt_includes (str "<title>") (htmlSnippet m)),
    (opt_includes (str "description") (htmlSnippet m)), (startsWith (str "https") (url m)),
    (truthy_string (fetchError m)), (nonempty L); vm_compute; reflexivity.
Qed.

(** X15: every text of a report of the scoring engine that the page
    shows (summaries, details, console analysis, recommendations) passes
    through [cleanText] unchanged: the fallback report is displayed word
    for word. *)
Theorem displayedTexts_clean m L :
  Forall (fun x => cleanText x = x) (displayedTexts (simulateAnalysis m L))
  /\ length (displayedTexts (simulateAnalysis m L)) = (if nonempty L then 19 else 18)%nat.
Proof.
  split.
  - apply Forall_forall. intros x Hx.
    pose proof (displayedTexts_clean_bool m L) as H.
    rewrite forallb_forall in H. apply list_elem_of_In in Hx.
    pose proof (H x Hx) as Hb. apply bool_decide_eq_true in Hb. exact Hb.
  - unfold simulateAnalysis, displayedTexts;
      cbn [seo accessibility privacy jsErrors recommendations summary details privacy_findings].
    destruct (nonempty L); reflexivity.
Qed.

(** ** [handleScan] *)

Lemma analyzeWithGemini_resolves JSON_parse env ev m L :
  exists v, analyzeWithGemini JSON_parse env ev m L = Normal v.
Proof.
  destruct env as [|[[|c key]|]];
    try (eexists; apply analyzeWithGemini_failure; constructor).
  destruct ev as [[[[[|d payload]|]]|]|e|];
    try (eexists; apply analyzeWithGemini_failure; constructor).
  destruct (JSON_parse (d :: payload)) as [v|e] eqn:Hp.
  - exists v. cbn. rewrite Hp. reflexivity.
  - eexists. apply analyzeWithGemini_failure. eapply parse_fails. exact Hp.
Qed.

(** The three pieces, run one after the other, are [handleScan]. *)
Lemma handleScan_segments JSON_parse net env ev s :
  handleScan JSON_parse net env ev s =
    match handleScan_start s with
    | (s1, None) => Normal s1
    | (s1, Some p) =>
        scanResult ← scanWebsite (pending_url p) net;
        Normal (handleScan_analyzed
                  (analyzeWithGemini JSON_parse env ev scanResult (pending_logs p))
                  (handleScan_scanned scanResult s1))
    end.
Proof.
  unfold handleScan, handleScan_start. destruct (nonempty (app_url s)); [|reflexivity].
  cbn [negb pending_url pending_logs].
  destruct (scanWebsite (app_url s) net) as [m|e]; [|reflexivity]. cbn.
  destruct (analyzeWithGemini JSON_parse env ev m (app_logs s)); reflexivity.
Qed.

Ltac app_simpl :=
  cbn [app_url app_logs app_status app_metrics app_analysis app_errorMsg
       setUrl setLogs setStatus setMetrics setAnalysis setErrorMsg clearAll initialState
       handleScan_scanned handleScan_analyzed option_list fst snd] in *.

(** X16: a scan that nothing interrupts never rejects.  With an empty
    URL field it only sets the message "Please enter a valid URL."; with
    any other content, white space included, it ends in the status
    complete, with no message, the metrics of the probe and, in the
    analysis cell, the result of the orchestrator ([null] when that
    result is [null]); the [catch] branch with the status error is never
    taken.  A field of white space only is scanned as [https://]. *)
Theorem handleScan_settles JSON_parse net env ev s :
  exists s', handleScan JSON_parse net env ev s = Normal s'
    /\ app_url s' = app_url s /\ app_logs s' = app_logs s
    /\ (app_url s = [] -> s' = setErrorMsg (Some (str "Please enter a valid URL.")) s)
    /\ (app_url s <> [] ->
          app_status s' = StatusComplete /\ app_errorMsg s' = None
          /\ exists m v,
               scanWebsite (app_url s) net = Normal m
               /\ analyzeWithGemini JSON_parse env ev m (app_logs s) = Normal v
               /\ app_metrics s' = Some m /\ app_analysis s' = fromNullable v
               /\ url m = normalizeUrl (app_url s)
               /\ (blank (app_url s) -> url m = str "https://")).
Proof.
  unfold handleScan. destruct (app_url s) as [|c u] eqn:Hu.
  - eexists. split; [reflexivity|]. app_simpl. rewrite Hu.
    split; [reflexivity|]. split; [reflexivity|]. split; [reflexivity|]. congruence.
  - cbn [nonempty negb].
    destruct (scanWebsite_resolves (c :: u) net) as [m Hm]. rewrite Hm. cbn [mbind Completion_bind].
    destruct (analyzeWithGemini_resolves JSON_parse env ev m (app_logs s)) as [v Hv].
    rewrite Hv. cbn [try_catch mbind Completion_bind].
    eexists. split; [reflexivity|]. app_simpl. rewrite Hu.
    split; [reflexivity|]. split; [reflexivity|]. split; [discriminate|]. intros _.
    split; [reflexivity|]. split; [reflexivity|]. exists m, v.
    pose proof (scanWebsite_url _ _ _ Hm) as Hurl.
    split; [reflexivity|]. split; [exact Hv|]. split; [reflexivity|].
    split; [reflexivity|]. split; [exact Hurl|]. intros Hb. rewrite Hurl.
    unfold normalizeUrl. rewrite (trim_blank _ Hb). reflexivity.
Qed.

(** A reply whose text is ["null"] parses, so the scan ends in the
    status complete, and the analysis cell holds [null]. *)
Example handleScan_null_payload :
  exists s',
    handleScan parse_null timed_out (Env (Some (str "key")))
      (ApiResolves (Some {| text := Some (str "null") |}))
      (setUrl (str "a.example") initialState) = Normal s'
    /\ app_status s' = StatusComplete /\ app_analysis s' = None
    /\ is_Some (app_metrics s').
Proof. eexists. split; [reflexivity|]. split; [reflexivity|]. split; [reflexivity|]. eexists; reflexivity. Qed.

(** ** The states of the page *)

Lemma elem_of_middle {A} (l1 l2 : list A) x y : x ∈ l1 ++ l2 -> x ∈ l1 ++ y :: l2.
Proof. rewrite !elem_of_app, elem_of_cons. intros [?|?]; auto. Qed.

(** X17: whatever the user does and in whatever order the started scans
    settle, the page never gets the status error and never shows "AI
    Analysis failed. Please try again."; the only message is "Please
    enter a valid URL."; and while the status is scanning or analyzing
    (the button disabled) a started scan is waiting at the matching
    [await], so the busy status is left when that scan settles. *)
Theorem reachable_invariant c :
  reachable c ->
  app_status c.1 <> StatusError
  /\ (app_errorMsg c.1 = None \/ app_errorMsg c.1 = Some (str "Please enter a valid URL."))
  /\ (app_status c.1 = StatusScanning ->
        exists p, p ∈ c.2 /\ pending_phase p = AwaitScan)
  /\ (app_status c.1 = StatusAnalyzing ->
        exists p m, p ∈ c.2 /\ pending_phase p = AwaitAnalysis m)
  /\ (forall p, p ∈ c.2 -> pending_url p <> []).
Proof.
  unfold reachable. intros H. revert c H.
  apply rtc_ind_r; [|intros c1 c2 _ Hstep (I1 & I2 & I4 & I5 & I6)].
  - app_simpl. repeat split; try discriminate; auto. intros p Hp. inversion Hp.
  - destruct Hstep as [s ps v|s ps v|s ps|s ps [Hb1 Hb2]|s ps1 p ps2 net m Hp Hm
                       |s ps1 p ps2 net e Hp Hm|s ps1 p ps2 m P env ev Hp]; cbn [fst snd] in *.
    + repeat split; assumption.
    + repeat split; assumption.
    + app_simpl. repeat split; try discriminate; auto.
    + unfold handleScan_start. destruct (app_url s) as [|ch u] eqn:Hu; cbn [nonempty negb fst snd].
      * cbn [option_list]. rewrite app_nil_r. app_simpl. repeat split; auto.
      * app_simpl. repeat split; try discriminate; auto.
        -- intros _. eexists. split; [apply elem_of_app; right; apply list_elem_of_singleton; reflexivity|].
           reflexivity.
        -- intros p Hp. apply elem_of_app in Hp as [Hp|Hp]; [apply I6; exact Hp|].
           apply list_elem_of_singleton in Hp as ->. cbn [pending_url]. discriminate.
    + app_simpl. repeat split; try discriminate; auto.
      * intros _. eexists _, m. split; [apply elem_of_app; right; left|]. reflexivity.
      * intros q Hq. apply elem_of_app in Hq as [Hq|Hq].
        -- apply I6, elem_of_app. auto.
        -- apply elem_of_cons in Hq as [->|Hq]; cbn [pending_url].
           ++ apply I6, elem_of_app. right. left.
           ++ apply I6, elem_of_app. right. right. exact Hq.
    + destruct (scanWebsite_resolves (pending_url p) net) as [m Hm']. congruence.
    + destruct (analyzeWithGemini_resolves P env ev m (pending_logs p)) as [v ->]. app_simpl.
      repeat split; try discriminate; auto.
      intros q Hq. apply I6, elem_of_middle, Hq.
Qed.

(** A page on which [a.example] was typed, the button clicked and the
    probe timed out: the scan waits for its analysis. *)
Lemma reachable_after_scan :
  reachable (handleScan_scanned
               {| url := str "https://a.example"; statusCode := None; responseTimeMs := None;
                  headers := ∅; htmlSnippet := None;
                  fetchError := Some (str "Connection Timeout") |}
               (handleScan_start (setUrl (str "a.example") initialState)).1,
             [{| pending_url := str "a.example"; pending_logs := [];
                 pending_phase := AwaitAnalysis
                   {| url := str "https://a.example"; statusCode := None;
                      responseTimeMs := None; headers := ∅; htmlSnippet := None;
                      fetchError := Some (str "Connection Timeout") |} |}]).
Proof.
  unfold reachable.
  eapply rtc_l; [apply (step_setUrl _ _ (str "a.example"))|].
  eapply rtc_l; [apply step_click; split; discriminate|].
  eapply rtc_l; [|apply rtc_refl].
  exact (step_scanned (handleScan_start (setUrl (str "a.example") initialState)).1 []
           {| pending_url := str "a.example"; pending_logs := []; pending_phase := AwaitScan |}
           [] timed_out _ eq_refl eq_refl).
Defined.

Lemma reachable_invariant_witness :
  reachable (handleScan_scanned
               {| url := str "https://a.example"; statusCode := None; responseTimeMs := None;
                  headers := ∅; htmlSnippet := None;
                  fetchError := Some (str "Connection Timeout") |}
               (handleScan_start (setUrl (str "a.example") initialState)).1,
             [{| pending_url := str "a.example"; pending_logs := [];
                 pending_phase := AwaitAnalysis
                   {| url := str "https://a.example"; statusCode := None;
                      responseTimeMs := None; headers := ∅; htmlSnippet := None;
                      fetchError := Some (str "Connection Timeout") |} |}])
  /\ exists p m,
       p ∈ [{| pending_url := str "a.example"; pending_logs := [];
               pending_phase := AwaitAnalysis
                 {| url := str "https://a.example"; statusCode := None;
                    responseTimeMs := None; headers := ∅; htmlSnippet := None;
                    fetchError := Some (str "Connection Timeout") |} |}]
       /\ pending_phase p = AwaitAnalysis m.
Proof.
  pose proof reachable_after_scan as H.
  split; [exact H|].
  exact (proj1 (proj2 (proj2 (proj2 (reachable_invariant _ H)))) eq_refl).
Defined.

(** X18: "Clear form" does not stop a scan that is under way.  When the
    form is cleared while a scan waits for its analysis, the analysis
    that settles afterwards sets the status complete on the cleared
    page and stores its result there: no metrics, an empty URL field,
    and a result that is not shown, since the page renders its
    placeholder only for the status idle and its results only with
    metrics. *)
Theorem clearAll_during_analysis s ps1 p ps2 m JSON_parse env ev :
  reachable (s, ps1 ++ p :: ps2) ->
  pending_phase p = AwaitAnalysis m ->
  exists s',
    s' = handleScan_analyzed (analyzeWithGemini JSON_parse env ev m (pending_logs p)) (clearAll s)
    /\ reachable (s', ps1 ++ ps2)
    /\ app_status s' = StatusComplete
    /\ (exists v, analyzeWithGemini JSON_parse env ev m (pending_logs p) = Normal v
                  /\ app_analysis s' = fromNullable v)
    /\ app_metrics s' = None /\ app_url s' = []
    /\ ~ showsPlaceholder s' /\ ~ showsResults s'.
Proof.
  intros Hr Hp. eexists. split; [reflexivity|]. split.
  - unfold reachable in *. eapply rtc_r; [eapply rtc_r; [exact Hr|apply step_clearAll]|].
    apply step_analyzed. exact Hp.
  - destruct (analyzeWithGemini_resolves JSON_parse env ev m (pending_logs p)) as [v ->].
    unfold showsPlaceholder, showsResults. app_simpl.
    split; [reflexivity|]. split; [exists v; split; reflexivity|].
    split; [reflexivity|]. split; [reflexivity|].
    split; [discriminate|]. intros [x Hx]. discriminate.
Qed.

Lemma clearAll_during_analysis_witness :
  exists s',
    reachable (s', [])
    /\ app_status s' = StatusComplete /\ app_metrics s' = None
    /\ ~ showsPlaceholder s' /\ ~ showsResults s'.
Proof.
  pose proof reachable_after_scan as Hr.
  destruct (clearAll_during_analysis _ [] _ [] _ parse_empty_object NoProcess TimerFirst
              Hr eq_refl) as (s' & _ & Hr' & Hs & _ & Hm & _ & Hp & Hres).
  exists s'. repeat split; assumption.
Defined.

(** ** What the two region patterns match *)

Lemma find_ci_intro p s before from :
  s = before ++ from -> startsWith_ci p from = true ->
  (forall k, (k < length before)%nat -> startsWith_ci p (drop k s) = false) ->
  find_ci p s = Some (before, from).
Proof.
  revert s. induction before as [|c before IH]; intros s -> Hf Hk.
  - destruct from as [|d from]; cbn [app find_ci]; cbn [app] in Hf; rewrite Hf; reflexivity.
  - assert (startsWith_ci p (c :: before ++ from) = false) as H0
      by (apply (Hk 0%nat); cbn; lia).
    cbn [app find_ci]. rewrite H0.
    rewrite (IH (before ++ from) eq_refl Hf); [reflexivity|].
    intros k Hlt. apply (Hk (S k)). cbn. lia.
Qed.

Lemma find_ci_from p s before from :
  find_ci p s = Some (before, from) -> from = drop (length before) s.
Proof. intros H. apply find_ci_split in H as [-> _]. rewrite drop_app_length. reflexivity. Qed.

Lemma occurs_ci_after_first p s before from i :
  find_ci p s = Some (before, from) -> occurs_ci p s i -> (length before <= i)%nat.
Proof.
  intros H Hi. destruct (Nat.le_gt_cases (length before) i) as [?|Hlt]; [assumption|].
  unfold occurs_ci in Hi. rewrite (find_ci_first _ _ _ _ H i Hlt) in Hi. discriminate.
Qed.

Lemma startsWith_ci_length p s : startsWith_ci p s = true -> (length p <= length s)%nat.
Proof.
  revert s. induction p as [|a p IH]; intros s H; [cbn; lia|].
  destruct s as [|b s]; [discriminate|]. cbn [startsWith_ci] in H.
  apply andb_true_iff in H as [_ H]. apply IH in H. cbn [length]. lia.
Qed.

Lemma startsWith_ci_take p s :
  startsWith_ci p s = true -> startsWith_ci p (take (length p) s) = true.
Proof.
  revert s. induction p as [|a p IH]; intros s H; [reflexivity|].
  destruct s as [|b s]; [discriminate|]. cbn [startsWith_ci] in H.
  apply andb_true_iff in H as [Hc H]. cbn [length]. rewrite firstn_cons.
  cbn [startsWith_ci]. rewrite Hc, (IH _ H). reflexivity.
Qed.

Lemma startsWith_ci_prefix p o rest :
  startsWith_ci p o = true -> startsWith_ci p (o ++ rest) = true.
Proof.
  revert o. induction p as [|a p IH]; intros o H; [reflexivity|].
  destruct o as [|b o]; [discriminate|]. cbn [startsWith_ci] in H.
  apply andb_true_iff in H as [Hc H]. cbn [app startsWith_ci].
  rewrite Hc, (IH _ H). reflexivity.
Qed.

(** X19: [text.match(/<head>([\s\S]*?)<\/head>/i)] succeeds with a block
    and its inner text exactly when the text splits into: a part in
    which no [<head>] starts, an opening tag, the inner text, a closing
    tag before which no [</head>] starts, and a rest; tags in any letter
    case.  It fails exactly when no [</head>] starts at or behind the end
    of a [<head>]. *)
Theorem headRe_match_spec text :
  (forall block inner,
     exec headRe text = Some (block, inner) <->
     exists before opening closing after,
       text = before ++ opening ++ inner ++ closing ++ after
       /\ block = opening ++ inner ++ closing
       /\ length opening = 6%nat /\ startsWith_ci (str "<head>") opening = true
       /\ length closing = 7%nat /\ startsWith_ci (str "</head>") closing = true
       /\ (forall k, (k < length before)%nat -> ~ occurs_ci (str "<head>") text k)
       /\ (forall k, (k < length inner)%nat ->
             ~ occurs_ci (str "</head>") (inner ++ closing ++ after) k))
  /\ (exec headRe text = None <->
      forall i j, occurs_ci (str "<head>") text i -> (i + 6 <= j)%nat ->
                  ~ occurs_ci (str "</head>") text j).
Proof.
  rewrite exec_headRe. unfold head_block, occurs_ci.
  assert (forall block inner,
    match find_ci (str "<head>") text with
    | Some (_, from) =>
        match find_ci (str "</head>") (drop 6 from) with
        | Some (inner, closing) => Some (take 6 from ++ inner ++ take 7 closing, inner)
        | None => None
        end
    | None => None
    end = Some (block, inner) ->
    exists before opening closing after,
       text = before ++ opening ++ inner ++ closing ++ after
       /\ block = opening ++ inner ++ closing
       /\ length opening = 6%nat /\ startsWith_ci (str "<head>") opening = true
       /\ length closing = 7%nat /\ startsWith_ci (str "</head>") closing = true
       /\ (forall k, (k < length before)%nat -> startsWith_ci (str "<head>") (drop k text) <> true)
       /\ (forall k, (k < length inner)%nat ->
             startsWith_ci (str "</head>") (drop k (inner ++ closing ++ after)) <> true)) as Hsound.
  { intros block inner.
    destruct (find_ci (str "<head>") text) as [[before from]|] eqn:Ho; [|discriminate].
    destruct (find_ci (str "</head>") (drop 6 from)) as [[inner' closing]|] eqn:Hc; [|discriminate].
    intros [= <- <-].
    pose proof (find_ci_split _ _ _ _ Ho) as [Ht Hso].
    pose proof (find_ci_split _ _ _ _ Hc) as [Hd Hsc].
    pose proof (startsWith_ci_length _ _ Hso) as Hlo.
    pose proof (startsWith_ci_length _ _ Hsc) as Hlc.
    change (length (str "<head>")) with 6%nat in Hlo.
    change (length (str "</head>")) with 7%nat in Hlc.
    exists before, (take 6 from), (take 7 closing), (drop 7 closing).
    rewrite (take_drop 7 closing), <- Hd, (take_drop 6 from).
    split; [exact Ht|]. split; [reflexivity|].
    split; [rewrite length_take; lia|].
    split; [apply (startsWith_ci_take (str "<head>")); exact Hso|].
    split; [rewrite length_take; lia|].
    split; [apply (startsWith_ci_take (str "</head>")); exact Hsc|].
    split.
    - intros k Hk. rewrite (find_ci_first _ _ _ _ Ho k Hk). discriminate.
    - intros k Hk. rewrite (find_ci_first _ _ _ _ Hc k Hk). discriminate. }
  split.
  - intros block inner. split.
    + intros H. destruct (Hsound _ _ H) as (b & o & c & a & H'). exists b, o, c, a. exact H'.
    + intros (before & opening & closing & after & -> & -> & Hlo & Hso & Hlc & Hsc & Hfo & Hfc).
      rewrite (find_ci_intro (str "<head>") _ before (opening ++ inner ++ closing ++ after)
                 eq_refl (startsWith_ci_prefix _ _ _ Hso)).
      2:{ intros k Hk. apply not_true_is_false. exact (Hfo k Hk). }
      cbn [mbind option_bind].
      rewrite (drop_app_length' opening) by (symmetry; exact Hlo).
      rewrite (find_ci_intro (str "</head>") _ inner (closing ++ after)
                 eq_refl (startsWith_ci_prefix _ _ _ Hsc)).
      2:{ intros k Hk. apply not_true_is_false. exact (Hfc k Hk). }
      cbn [mbind option_bind].
      rewrite (take_app_length' opening) by (symmetry; exact Hlo).
      rewrite (take_app_length' closing) by (symmetry; exact Hlc). reflexivity.
  - split.
    + intros Hn i j Hi Hij Hj.
      destruct (find_ci (str "<head>") text) as [[before from]|] eqn:Ho.
      * pose proof (occurs_ci_after_first _ _ _ _ _ Ho Hi) as Hbi.
        cbn [mbind option_bind] in Hn.
        destruct (find_ci (str "</head>") (drop 6 from)) as [[? ?]|] eqn:Hc; [discriminate|].
        rewrite (find_ci_from _ _ _ _ Ho), drop_drop in Hc.
        pose proof (find_ci_none _ _ Hc (j - (length before + 6))%nat) as Hx.
        rewrite drop_drop in Hx.
        replace (length before + 6 + (j - (length before + 6)))%nat with j in Hx by lia.
        congruence.
      * rewrite (find_ci_none _ _ Ho i) in Hi. discriminate.
    + intros Hall.
      destruct (find_ci (str "<head>") text) as [[before from]|] eqn:Ho; [|reflexivity].
      cbn [mbind option_bind].
      destruct (find_ci (str "</head>") (drop 6 from)) as [[inner closing]|] eqn:Hc;
        [|reflexivity].
      exfalso.
      pose proof (find_ci_split _ _ _ _ Ho) as [Ht Hso].
      pose proof (find_ci_split _ _ _ _ Hc) as [Hd Hsc].
      apply (Hall (length before) (length before + 6 + length inner)%nat); [|lia|].
      * rewrite Ht, drop_app_length. exact Hso.
      * rewrite <- drop_drop, <- drop_drop, Ht, drop_app_length, Hd, drop_app_length.
        exact Hsc.
Qed.

Lemma canon_gt x : canon x = 62%N <-> x = 62%N.
Proof.
  unfold canon. destruct (N.leb_spec 97 x), (N.leb_spec x 122); cbn [andb]; lia.
Qed.

Lemma startsWith_ci_gt s : startsWith_ci [62%N] s = true <-> exists rest, s = 62%N :: rest.
Proof.
  destruct s as [|c s]; cbn [startsWith_ci].
  - split; [discriminate | intros [? [=]]].
  - rewrite andb_true_r, N.eqb_eq. change (canon 62) with 62%N. rewrite canon_gt.
    split; [intros ->; eauto | intros [? [= -> _]]; reflexivity].
Qed.

Lemma first_gt_notin attrs rest :
  (forall k, (k < length attrs)%nat -> startsWith_ci [62%N] (drop k (attrs ++ rest)) = false)
  <-> 62%N ∉ attrs.
Proof.
  induction attrs as [|c attrs IH].
  - split; [intros _; apply not_elem_of_nil | intros _ k Hk; cbn in Hk; lia].
  - rewrite not_elem_of_cons, <- IH. split.
    + intros H. split.
      * intros <-. specialize (H 0%nat ltac:(cbn; lia)). discriminate.
      * intros k Hk. apply (H (S k)). cbn. lia.
    + intros [Hc H] [|k] Hk.
      * cbn [drop app startsWith_ci]. rewrite andb_true_r. apply N.eqb_neq.
        change (canon 62) with 62%N. rewrite canon_gt. congruence.
      * apply H. cbn in Hk. lia.
Qed.

Lemma body_block_sound text block inner :
  body_block text = Some (block, inner) ->
  exists before opening attrs closing after,
    text = before ++ opening ++ attrs ++ [62%N] ++ inner ++ closing ++ after
    /\ block = opening ++ attrs ++ [62%N] ++ inner ++ closing
    /\ length opening = 5%nat /\ startsWith_ci (str "<body") opening = true
    /\ (62%N ∉ attrs)
    /\ length closing = 7%nat /\ startsWith_ci (str "</body>") closing = true
    /\ (forall k, (k < length before)%nat -> ~ occurs_ci (str "<body") text k)
    /\ (forall k, (k < length inner)%nat ->
          ~ occurs_ci (str "</body>") (inner ++ closing ++ after) k).
Proof.
  unfold body_block, occurs_ci.
  destruct (find_ci (str "<body") text) as [[before from]|] eqn:Ho; [|discriminate].
  cbn [mbind option_bind]. change (str ">") with [62%N].
  destruct (find_ci [62%N] (drop 5 from)) as [[attrs gt]|] eqn:Hg; [|discriminate].
  cbn [mbind option_bind].
  destruct (find_ci (str "</body>") (drop 1 gt)) as [[inner' closing]|] eqn:Hc; [|discriminate].
  intros [= <- <-].
  pose proof (find_ci_split _ _ _ _ Ho) as [Ht Hso].
  pose proof (find_ci_split _ _ _ _ Hg) as [Hd Hsg].
  pose proof (find_ci_split _ _ _ _ Hc) as [Hr Hsc].
  apply startsWith_ci_gt in Hsg as [rest ->].
  change (drop 1 (62%N :: rest)) with rest in *. change (take 1 (62%N :: rest)) with [62%N].
  pose proof (startsWith_ci_length _ _ Hso) as Hlo.
  pose proof (startsWith_ci_length _ _ Hsc) as Hlc.
  change (length (str "<body")) with 5%nat in Hlo.
  change (length (str "</body>")) with 7%nat in Hlc.
  exists before, (take 5 from), attrs, (take 7 closing), (drop 7 closing).
  split.
  { rewrite (take_drop 7 closing), <- Hr.
    change ([62%N] ++ rest) with (62%N :: rest). rewrite <- Hd, (take_drop 5 from). exact Ht. }
  split; [reflexivity|].
  split; [rewrite length_take; lia|].
  split; [apply (startsWith_ci_take (str "<body")); exact Hso|].
  split; [apply (first_gt_notin attrs (62%N :: rest)); rewrite <- Hd;
          apply (find_ci_first _ _ _ _ Hg)|].
  split; [rewrite length_take; lia|].
  split; [apply (startsWith_ci_take (str "</body>")); exact Hsc|].
  split.
  - intros k Hk. rewrite (find_ci_first _ _ _ _ Ho k Hk). discriminate.
  - intros k Hk. rewrite (take_drop 7 closing), <- Hr, (find_ci_first _ _ _ _ Hc k Hk).
    discriminate.
Qed.

Lemma body_block_complete before opening attrs inner closing after :
  length opening = 5%nat -> startsWith_ci (str "<body") opening = true ->
  62%N ∉ attrs ->
  length closing = 7%nat -> startsWith_ci (str "</body>") closing = true ->
  (forall k, (k < length before)%nat ->
     ~ occurs_ci (str "<body")
         (before ++ opening ++ attrs ++ [62%N] ++ inner ++ closing ++ after) k) ->
  (forall k, (k < length inner)%nat ->
     ~ occurs_ci (str "</body>") (inner ++ closing ++ after) k) ->
  body_block (before ++ opening ++ attrs ++ [62%N] ++ inner ++ closing ++ after)
  = Some (opening ++ attrs ++ [62%N] ++ inner ++ closing, inner).
Proof.
  intros Hlo Hso Ha Hlc Hsc Hfo Hfc. unfold body_block, occurs_ci in *.
  rewrite (find_ci_intro (str "<body") _ before
             (opening ++ attrs ++ [62%N] ++ inner ++ closing ++ after)
             eq_refl (startsWith_ci_prefix _ _ _ Hso)).
  2:{ intros k Hk. apply not_true_is_false. exact (Hfo k Hk). }
  cbn [mbind option_bind]. change (str ">") with [62%N].
  rewrite (drop_app_length' opening) by (symmetry; exact Hlo).
  rewrite (find_ci_intro [62%N] _ attrs ([62%N] ++ inner ++ closing ++ after) eq_refl eq_refl).
  2:{ apply first_gt_notin. exact Ha. }
  cbn [mbind option_bind]. change (drop 1 ([62%N] ++ ?x)) with x.
  rewrite (find_ci_intro (str "</body>") _ inner (closing ++ after)
             eq_refl (startsWith_ci_prefix _ _ _ Hsc)).
  2:{ intros k Hk. apply not_true_is_false. exact (Hfc k Hk). }
  cbn [mbind option_bind].
  rewrite (take_app_length' opening) by (symmetry; exact Hlo).
  rewrite (take_app_length' closing) by (symmetry; exact Hlc). reflexivity.
Qed.

Lemma occurs_ci_shift p s n k : occurs_ci p (drop n s) k <-> occurs_ci p s (n + k).
Proof. unfold occurs_ci. rewrite drop_drop. reflexivity. Qed.

(** X20: [text.match(/<body[^>]*>([\s\S]*?)<\/body>/i)] succeeds with a
    block and its inner text exactly when the text splits into: a part
    in which no [<body] starts, the five characters of [<body] in any
    letter case, attributes without [>], the [>], the inner text, a
    closing tag before which no [</body>] starts, and a rest.  It fails
    exactly when there are no [<body], [>] behind it and [</body>] behind
    that [>].  Anything may stand between [<body] and [>]: [<bodyguard>]
    opens a body region too. *)
Theorem bodyRe_match_spec text :
  (forall block inner,
     exec bodyRe text = Some (block, inner) <->
     exists before opening attrs closing after,
       text = before ++ opening ++ attrs ++ [62%N] ++ inner ++ closing ++ after
       /\ block = opening ++ attrs ++ [62%N] ++ inner ++ closing
       /\ length opening = 5%nat /\ startsWith_ci (str "<body") opening = true
       /\ (62%N ∉ attrs)
       /\ length closing = 7%nat /\ startsWith_ci (str "</body>") closing = true
       /\ (forall k, (k < length before)%nat -> ~ occurs_ci (str "<body") text k)
       /\ (forall k, (k < length inner)%nat ->
             ~ occurs_ci (str "</body>") (inner ++ closing ++ after) k))
  /\ (exec bodyRe text = None <->
      forall i g j, occurs_ci (str "<body") text i -> (i + 5 <= g)%nat ->
                    occurs_ci (str ">") text g -> (g < j)%nat ->
                    ~ occurs_ci (str "</body>") text j)
  /\ exec bodyRe (str "<bodyguard>x</body>") = Some (str "<bodyguard>x</body>", str "x").
Proof.
  rewrite !exec_bodyRe. split; [|split; [|vm_compute; reflexivity]].
  - intros block inner. split; [apply body_block_sound|].
    intros (before & opening & attrs & closing & after & -> & -> & Hlo & Hso & Ha & Hlc & Hsc
            & Hfo & Hfc).
    apply body_block_complete; assumption.
  - split.
    + intros Hn i g j Hi Hig Hg Hgj Hj. unfold body_block in Hn.
      destruct (find_ci (str "<body") text) as [[before from]|] eqn:Ho.
      2:{ unfold occurs_ci in Hi. rewrite (find_ci_none _ _ Ho i) in Hi. discriminate. }
      pose proof (occurs_ci_after_first _ _ _ _ _ Ho Hi) as Hbi.
      cbn [mbind option_bind] in Hn.
      rewrite (find_ci_from _ _ _ _ Ho), drop_drop in Hn.
      replace g with (length before + 5 + (g - (length before + 5)))%nat in Hg by lia.
      apply occurs_ci_shift in Hg.
      destruct (find_ci (str ">") (drop (length before + 5) text)) as [[attrs gt]|] eqn:Hgt.
      2:{ unfold occurs_ci in Hg. rewrite (find_ci_none _ _ Hgt) in Hg. discriminate. }
      pose proof (occurs_ci_after_first _ _ _ _ _ Hgt Hg) as Hag.
      cbn [mbind option_bind] in Hn.
      rewrite (find_ci_from _ _ _ _ Hgt), !drop_drop in Hn.
      destruct (find_ci (str "</body>") (drop (length before + 5 + length attrs + 1) text))
        as [[? ?]|] eqn:Hc; [discriminate|].
      replace j with (length before + 5 + length attrs + 1
                      + (j - (length before + 5 + length attrs + 1)))%nat in Hj by lia.
      apply occurs_ci_shift in Hj.
      unfold occurs_ci in Hj. rewrite (find_ci_none _ _ Hc) in Hj. discriminate.
    + intros Hall. destruct (body_block text) as [[block inner]|] eqn:Hb; [|reflexivity].
      exfalso.
      destruct (body_block_sound _ _ _ Hb)
        as (before & opening & attrs & closing & after & -> & _ & Hlo & Hso & _ & _ & Hsc & _).
      apply (Hall (length before) (length before + 5 + length attrs)%nat
                  (length before + 5 + length attrs + 1 + length inner)%nat); try lia.
      * unfold occurs_ci. rewrite drop_app_length.
        apply startsWith_ci_prefix. exact Hso.
      * unfold occurs_ci. rewrite <- !drop_drop, drop_app_length.
        rewrite (drop_app_length' opening) by (symmetry; exact Hlo).
        rewrite drop_app_length. reflexivity.
      * unfold occurs_ci. rewrite <- !drop_drop, drop_app_length.
        rewrite (drop_app_length' opening) by (symmetry; exact Hlo).
        rewrite drop_app_length. change (drop 1 ([62%N] ++ ?x)) with x.
        rewrite drop_app_length. apply startsWith_ci_prefix. exact Hsc.
Qed.
